(** * Face-controlled tic-tac-toe: pose/gesture filtering pipeline

    A shallow embedding of [face_controller.py], [input_state.py], [config.py]
    and the movement block of [main.py], followed by the properties the
    specification states about them.

    Number model.  Python [int] is [Z].  Python [float] is modelled twice.
    Where a property turns on how a float operation rounds (the frame on
    which a hold gesture fires, the eye-closed test at the edge of the
    drop), the code is embedded on the binary64 numbers of [PrimFloat], whose
    operations and comparisons are those of CPython: modules [Py64],
    [cfg64], [Input64] and [Face64].  Elsewhere (ranges of the wrapped
    angles, the windows, the intent filter, the movement latch, the
    start/armed bookkeeping of the holds) floats are the exact rationals [Q], with
    comparisons decided by [Qle_bool]: modules [Py], [cfg], [Face], [Input]
    and [Main].

    External collaborators.  The camera, the landmark detector and the OpenCV
    pose solver are inputs of the model: a [Capture] says what the camera and
    the detector delivered for one frame, and a [Landmarks] value carries the
    outcome of the two [solvePnP] calls, the Euler angles of [RQDecomp3x3]
    and the two eye aspect ratios computed by [eye_ear]. *)

From Stdlib Require Import QArith Qround Qabs ZArith List Bool Lia Lqa.
Import ListNotations.

(** ** Python primitives used by the source *)

Module Py.

(** [a < b], [a > b] and [a >= b] on floats. *)
Definition ltb (a b : Q) : bool := negb (Qle_bool b a).
Definition gtb (a b : Q) : bool := ltb b a.
Definition geb (a b : Q) : bool := Qle_bool b a.

(** [x % m] on floats, for a positive divisor [m]: the result carries the
    sign of the divisor, [x - m * floor (x / m)]. *)
Definition fmod (x m : Q) : Q := x - m * inject_Z (Qfloor (x / m)).

(** [np.mean] of a non-empty sequence: the sum, taken left to right,
    divided by the number of elements. *)
Definition sum (l : list Q) : Q := fold_left Qplus l 0%Q.
Definition mean (l : list Q) : Q := (sum l / inject_Z (Z.of_nat (length l)))%Q.

(** [collections.deque(maxlen=n).append(x)]: the element is added on the
    right and, when the length then exceeds [maxlen], one element is
    dropped on the left. *)
Definition deque_append (maxlen : nat) (d : list Q) (x : Q) : list Q :=
  let d' := d ++ [x] in
  if Nat.ltb maxlen (length d') then tl d' else d'.

End Py.

(** ** config.py *)

Module cfg.

Definition FPS : Z := 30.
Definition FACE_LOSS_GRACE_SECONDS : Q := 0.8.
Definition NEUTRAL_FRAMES_REQUIRED : Z := 2.
Definition PLACE_HOLD_SECONDS : Q := 0.35.
Definition RESET_HOLD_SECONDS : Q := 3.

End cfg.

(** ** face_controller.py *)

Module Face.

Open Scope Q_scope.

(** [wrap_human_angle]. *)
Definition wrap_human_angle (deg : Q) : Q :=
  let deg := Py.fmod (deg + 180) 360 - 180 in
  if Py.gtb deg 90 then deg - 180
  else if Py.ltb deg (-90) then deg + 180
  else deg.

(** The yaw wrap written inline in [head_pose_pnp]:
    [(yaw + 180.0) % 360.0 - 180.0]. *)
Definition wrap_yaw (yaw : Q) : Q := Py.fmod (yaw + 180) 360 - 180.

(** What the detector and OpenCV deliver for a frame with a face. *)
Record Landmarks := {
  epnp_ok : bool;            (* [ok] of the SOLVEPNP_EPNP call *)
  iterative_ok : bool;       (* [ok] of the SOLVEPNP_ITERATIVE call *)
  angles : Q * Q * Q;        (* [angles[0], angles[1], angles[2]] of RQDecomp3x3 *)
  ear_left : Q;              (* [eye_ear(pts, LEFT_EYE)] *)
  ear_right : Q              (* [eye_ear(pts, RIGHT_EYE)] *)
}.

(** [head_pose_pnp]: [None] when either solve fails, else the wrapped
    triple [(pitch, yaw, roll)]. *)
Definition head_pose_pnp (lm : Landmarks) : option (Q * Q * Q) :=
  if negb (epnp_ok lm) then None
  else if negb (iterative_ok lm) then None
  else
    let '(a0, a1, a2) := angles lm in
    let pitch := wrap_human_angle a0 in
    let yaw := wrap_yaw a1 in
    let roll := wrap_human_angle a2 in
    Some (pitch, yaw, roll).

(** The mutable attributes of a [FaceController] instance. *)
Record FaceController := {
  yaw_hist : list Q;
  pitch_hist : list Q;
  roll_hist : list Q;
  earL_hist : list Q;
  earR_hist : list Q;
  baseline_earL : option Q;
  baseline_earR : option Q;
  baseline_yaw : Q;
  baseline_pitch : Q;
  baseline_roll : Q;
  _mx_run : Z;
  _my_run : Z;
  _mx_last : Z;
  _my_last : Z
}.

(** Attributes assigned once in [__init__] and never written again. *)
Definition ANGLE_MAXLEN : nat := 9.
Definition EAR_MAXLEN : nat := 5.
Definition INVERT_X : bool := true.
Definition YAW_TH : Q := 18.
Definition PITCH_TH : Q := 20.
Definition PITCH_DEADZONE : Q := 10.
Definition INTENT_FRAMES : Z := 3.
Definition BLINK_DROP : Q := 0.72.

(** [__init__]. *)
Definition init : FaceController := {|
  yaw_hist := []; pitch_hist := []; roll_hist := [];
  earL_hist := []; earR_hist := [];
  baseline_earL := None; baseline_earR := None;
  baseline_yaw := 0; baseline_pitch := 0; baseline_roll := 0;
  _mx_run := 0; _my_run := 0; _mx_last := 0; _my_last := 0
|}.

(** Attribute assignments, grouped as the source groups them. *)
Definition set_baselines (c : FaceController)
    (bL bR : option Q) (by_ bp br : Q) : FaceController := {|
  yaw_hist := yaw_hist c; pitch_hist := pitch_hist c; roll_hist := roll_hist c;
  earL_hist := earL_hist c; earR_hist := earR_hist c;
  baseline_earL := bL; baseline_earR := bR;
  baseline_yaw := by_; baseline_pitch := bp; baseline_roll := br;
  _mx_run := _mx_run c; _my_run := _my_run c;
  _mx_last := _mx_last c; _my_last := _my_last c
|}.

Definition set_intent (c : FaceController)
    (xrun yrun xlast ylast : Z) : FaceController := {|
  yaw_hist := yaw_hist c; pitch_hist := pitch_hist c; roll_hist := roll_hist c;
  earL_hist := earL_hist c; earR_hist := earR_hist c;
  baseline_earL := baseline_earL c; baseline_earR := baseline_earR c;
  baseline_yaw := baseline_yaw c; baseline_pitch := baseline_pitch c;
  baseline_roll := baseline_roll c;
  _mx_run := xrun; _my_run := yrun; _mx_last := xlast; _my_last := ylast
|}.

Definition set_pose_hists (c : FaceController)
    (ph yh rh : list Q) : FaceController := {|
  yaw_hist := yh; pitch_hist := ph; roll_hist := rh;
  earL_hist := earL_hist c; earR_hist := earR_hist c;
  baseline_earL := baseline_earL c; baseline_earR := baseline_earR c;
  baseline_yaw := baseline_yaw c; baseline_pitch := baseline_pitch c;
  baseline_roll := baseline_roll c;
  _mx_run := _mx_run c; _my_run := _my_run c;
  _mx_last := _mx_last c; _my_last := _my_last c
|}.

Definition set_ear_hists (c : FaceController)
    (lh rh : list Q) : FaceController := {|
  yaw_hist := yaw_hist c; pitch_hist := pitch_hist c; roll_hist := roll_hist c;
  earL_hist := lh; earR_hist := rh;
  baseline_earL := baseline_earL c; baseline_earR := baseline_earR c;
  baseline_yaw := baseline_yaw c; baseline_pitch := baseline_pitch c;
  baseline_roll := baseline_roll c;
  _mx_run := _mx_run c; _my_run := _my_run c;
  _mx_last := _mx_last c; _my_last := _my_last c
|}.

(** [calibrate]. *)
Definition calibrate (c : FaceController) : FaceController :=
  let bL := if Nat.ltb 0 (length (earL_hist c))
            then Some (Py.mean (earL_hist c)) else baseline_earL c in
  let bR := if Nat.ltb 0 (length (earR_hist c))
            then Some (Py.mean (earR_hist c)) else baseline_earR c in
  let by_ := if Nat.ltb 0 (length (yaw_hist c))
             then Py.mean (yaw_hist c) else baseline_yaw c in
  let bp := if Nat.ltb 0 (length (pitch_hist c))
            then Py.mean (pitch_hist c) else baseline_pitch c in
  let br := if Nat.ltb 0 (length (roll_hist c))
            then Py.mean (roll_hist c) else baseline_roll c in
  let c := set_baselines c bL bR by_ bp br in
  set_intent c 0%Z 0%Z 0%Z 0%Z.

(** [_apply_intent_filter]: the new state and the pair [(mx, my)]. *)
Definition _apply_intent_filter (c : FaceController) (raw_mx raw_my : Z)
    : FaceController * (Z * Z) :=
  let '(xrun, xlast, mx) :=
    if (raw_mx =? 0)%Z then (0%Z, 0%Z, 0%Z)
    else
      let '(run, last) :=
        if (raw_mx =? _mx_last c)%Z then ((_mx_run c + 1)%Z, _mx_last c)
        else (1%Z, raw_mx) in
      (run, last, if (run >=? INTENT_FRAMES)%Z then raw_mx else 0%Z) in
  let '(yrun, ylast, my) :=
    if (raw_my =? 0)%Z then (0%Z, 0%Z, 0%Z)
    else
      let '(run, last) :=
        if (raw_my =? _my_last c)%Z then ((_my_run c + 1)%Z, _my_last c)
        else (1%Z, raw_my) in
      (run, last, if (run >=? INTENT_FRAMES)%Z then raw_my else 0%Z) in
  (set_intent c xrun yrun xlast ylast, (mx, my)).

(** The per-frame [actions] dictionary. *)
Record Actions := {
  move_x : Z;
  move_y : Z;
  yaw : Q;
  pitch : Q;
  roll : Q;
  left_eye_closed : bool;
  right_eye_closed : bool;
  face_found : bool
}.

(** The dictionary as it is first built in [read_actions]. *)
Definition neutral : Actions := {|
  move_x := 0; move_y := 0; yaw := 0; pitch := 0; roll := 0;
  left_eye_closed := false; right_eye_closed := false; face_found := false
|}.

(** What [cap.read] and [face_mesh.process] deliver for one frame. *)
Inductive Capture :=
| ReadFailed                      (* [ok] of [cap.read()] is false *)
| NoFace                          (* [res.multi_face_landmarks] is empty *)
| FaceSeen (lm : Landmarks).

(** The thresholding of the smoothed angles into raw moves. *)
Definition raw_move_x (yaw_s : Q) : Z :=
  let raw_mx := if Py.ltb yaw_s (- YAW_TH) then (-1)%Z
                else if Py.gtb yaw_s YAW_TH then 1%Z else 0%Z in
  if INVERT_X then (raw_mx * -1)%Z else raw_mx.

Definition raw_move_y (pitch_s : Q) : Z :=
  if Py.ltb pitch_s (- PITCH_TH) then 1%Z
  else if Py.gtb pitch_s PITCH_TH then (-1)%Z
  else if Py.ltb (Qabs pitch_s) PITCH_DEADZONE then 0%Z
  else 0%Z.

(** [read_actions]: the new controller state and the returned value
    ([None] when the camera gave no frame). *)
Definition read_actions (c : FaceController) (cap : Capture)
    : FaceController * option Actions :=
  match cap with
  | ReadFailed => (c, None)
  | NoFace => (c, Some neutral)
  | FaceSeen lm =>
      let '(c, (pitch_s, yaw_s, roll_s), (mx, my)) :=
        match head_pose_pnp lm with
        | Some (pitch, yaw, roll) =>
            let c := set_pose_hists c
                       (Py.deque_append ANGLE_MAXLEN (pitch_hist c) pitch)
                       (Py.deque_append ANGLE_MAXLEN (yaw_hist c) yaw)
                       (Py.deque_append ANGLE_MAXLEN (roll_hist c) roll) in
            let pitch_s := Py.mean (pitch_hist c) - baseline_pitch c in
            let yaw_s := Py.mean (yaw_hist c) - baseline_yaw c in
            let roll_s := Py.mean (roll_hist c) - baseline_roll c in
            let raw_mx := raw_move_x yaw_s in
            let raw_my := raw_move_y pitch_s in
            let '(c, m) := _apply_intent_filter c raw_mx raw_my in
            (c, (pitch_s, yaw_s, roll_s), m)
        | None => (c, (0, 0, 0), (0%Z, 0%Z))
        end in
      let earL := ear_left lm in
      let earR := ear_right lm in
      let c := set_ear_hists c
                 (Py.deque_append EAR_MAXLEN (earL_hist c) earL)
                 (Py.deque_append EAR_MAXLEN (earR_hist c) earR) in
      let earL_s := Py.mean (earL_hist c) in
      let earR_s := Py.mean (earR_hist c) in
      let lc := match baseline_earL c with
                | Some b => Py.ltb earL_s (b * BLINK_DROP)
                | None => false
                end in
      let rc := match baseline_earR c with
                | Some b => Py.ltb earR_s (b * BLINK_DROP)
                | None => false
                end in
      (c, Some {| move_x := mx; move_y := my;
                  yaw := yaw_s; pitch := pitch_s; roll := roll_s;
                  left_eye_closed := lc; right_eye_closed := rc;
                  face_found := true |})
  end.

End Face.

(** ** input_state.py *)

Module Input.

Open Scope Q_scope.

Record InputState := {
  last_face_seen_time : Q;
  move_armed : bool;
  neutral_run : Z;
  both_hold_start : option Q;
  both_hold_armed : bool;
  right_only_hold_start : option Q;
  right_only_hold_armed : bool
}.

(** The dataclass defaults. *)
Definition init : InputState := {|
  last_face_seen_time := 0;
  move_armed := true;
  neutral_run := 0;
  both_hold_start := None;
  both_hold_armed := true;
  right_only_hold_start := None;
  right_only_hold_armed := true
|}.

Definition set_move (s : InputState) (armed : bool) (run : Z) : InputState := {|
  last_face_seen_time := last_face_seen_time s;
  move_armed := armed;
  neutral_run := run;
  both_hold_start := both_hold_start s;
  both_hold_armed := both_hold_armed s;
  right_only_hold_start := right_only_hold_start s;
  right_only_hold_armed := right_only_hold_armed s
|}.

Definition set_both (s : InputState) (start : option Q) (armed : bool)
    : InputState := {|
  last_face_seen_time := last_face_seen_time s;
  move_armed := move_armed s;
  neutral_run := neutral_run s;
  both_hold_start := start;
  both_hold_armed := armed;
  right_only_hold_start := right_only_hold_start s;
  right_only_hold_armed := right_only_hold_armed s
|}.

Definition set_right_only (s : InputState) (start : option Q) (armed : bool)
    : InputState := {|
  last_face_seen_time := last_face_seen_time s;
  move_armed := move_armed s;
  neutral_run := neutral_run s;
  both_hold_start := both_hold_start s;
  both_hold_armed := both_hold_armed s;
  right_only_hold_start := start;
  right_only_hold_armed := armed
|}.

(** [on_calibrate]. *)
Definition on_calibrate (s : InputState) : InputState :=
  let s := set_move s true 0%Z in
  let s := set_both s None true in
  set_right_only s None true.

(** [update_neutral_and_arm]. *)
Definition update_neutral_and_arm (s : InputState) (mx my : Z)
    (neutral_frames_required : Z) : InputState :=
  if ((mx =? 0) && (my =? 0))%Z then
    let s := set_move s (move_armed s) (neutral_run s + 1)%Z in
    if (neutral_run s >=? neutral_frames_required)%Z
    then set_move s true (neutral_run s)
    else s
  else set_move s (move_armed s) 0%Z.

(** [consume_move_arm_if_moved]. *)
Definition consume_move_arm_if_moved (s : InputState) (moved : bool)
    : InputState :=
  if moved then set_move s false (neutral_run s) else s.

(** [handle_right_only_hold]: the new state and the returned flag. *)
Definition handle_right_only_hold (s : InputState) (now : Q)
    (right_closed left_closed : bool) (reset_hold_seconds : Q)
    : InputState * bool :=
  if right_closed && negb left_closed then
    let s := match right_only_hold_start s with
             | None => set_right_only s (Some now) true
             | Some _ => s
             end in
    match right_only_hold_start s with
    | Some start =>
        if Py.geb (now - start) reset_hold_seconds && right_only_hold_armed s
        then (set_right_only s (right_only_hold_start s) false, true)
        else (s, false)
    | None => (s, false)   (* not reached: the start was set just above *)
    end
  else (set_right_only s None true, false).

(** [handle_both_hold]: the new state and the returned flag. *)
Definition handle_both_hold (s : InputState) (now : Q)
    (right_closed left_closed : bool) (place_hold_seconds : Q)
    (game_over : bool) : InputState * bool :=
  if game_over then (set_both s None true, false)
  else if left_closed && right_closed then
    let s := match both_hold_start s with
             | None => set_both s (Some now) true
             | Some _ => s
             end in
    match both_hold_start s with
    | Some start =>
        if Py.geb (now - start) place_hold_seconds && both_hold_armed s
        then (set_both s (both_hold_start s) false, true)
        else (s, false)
    | None => (s, false)   (* not reached: the start was set just above *)
    end
  else (set_both s None true, false).

(** One frame of eye input for the hold handlers, with the caller's
    [game_over] flag (read by [handle_both_hold] only). *)
Record EyeFrame := {
  now : Q;
  right_closed : bool;
  left_closed : bool;
  game_over : bool
}.

(** The condition that drives each machine. *)
Definition right_only (f : EyeFrame) : bool :=
  right_closed f && negb (left_closed f).
Definition both (f : EyeFrame) : bool :=
  left_closed f && right_closed f.

(** The handlers called once per frame over a sequence of frames, with the
    flags they return. *)
Fixpoint run_right_only (th : Q) (s : InputState) (fs : list EyeFrame)
    : InputState * list bool :=
  match fs with
  | [] => (s, [])
  | f :: fs' =>
      let '(s1, b) :=
        handle_right_only_hold s (now f) (right_closed f) (left_closed f) th in
      let '(s2, bs) := run_right_only th s1 fs' in
      (s2, b :: bs)
  end.

Fixpoint run_both (th : Q) (s : InputState) (fs : list EyeFrame)
    : InputState * list bool :=
  match fs with
  | [] => (s, [])
  | f :: fs' =>
      let '(s1, b) :=
        handle_both_hold s (now f) (right_closed f) (left_closed f) th
                         (game_over f) in
      let '(s2, bs) := run_both th s1 fs' in
      (s2, b :: bs)
  end.

End Input.

(** ** main.py: the cursor-movement block of the game loop *)

Module Main.

Open Scope Q_scope.
Import Input.

(** [choose_axis_no_diagonal]. *)
Definition choose_axis_no_diagonal (mx my : Z) (yaw pitch : Q) : Z * Z :=
  if negb (mx =? 0)%Z && negb (my =? 0)%Z then
    if Py.geb (Qabs yaw) (Qabs pitch) then (mx, 0%Z) else (0%Z, my)
  else (mx, my).

(** The part of [actions] the movement block reads. *)
Record MoveFrame := {
  act_move_x : Z;
  act_move_y : Z;
  act_yaw : Q;
  act_pitch : Q
}.

(** Lines 200-222 of [main], run when [game.winner is None]: the new input
    state and the [game.move_cursor] call made on this frame, if any. *)
Definition move_block (s : InputState) (a : MoveFrame)
    : InputState * option (Z * Z) :=
  let '(mx, my) :=
    choose_axis_no_diagonal (act_move_x a) (act_move_y a)
                            (act_yaw a) (act_pitch a) in
  let s := update_neutral_and_arm s mx my cfg.NEUTRAL_FRAMES_REQUIRED in
  let cursor :=
    if move_armed s then
      if (mx =? -1)%Z then Some ((-1)%Z, 0%Z)
      else if (mx =? 1)%Z then Some (1%Z, 0%Z)
      else if (my =? 1)%Z then Some (0%Z, 1%Z)
      else if (my =? -1)%Z then Some (0%Z, (-1)%Z)
      else None
    else None in
  let moved := match cursor with Some _ => true | None => false end in
  (consume_move_arm_if_moved s moved, cursor).

(** What can happen to the input state between two frames of play: the
    movement block runs, or one of the four call sites of
    [state.on_calibrate()] in [main] is reached. *)
Inductive Tick :=
| Play (a : MoveFrame)
| OnCalibrate.

Definition tick (s : InputState) (t : Tick) : InputState * option (Z * Z) :=
  match t with
  | Play a => move_block s a
  | OnCalibrate => (on_calibrate s, None)
  end.

Fixpoint run (s : InputState) (ts : list Tick)
    : InputState * list (option (Z * Z)) :=
  match ts with
  | [] => (s, [])
  | t :: ts' =>
      let '(s1, m) := tick s t in
      let '(s2, ms) := run s1 ts' in
      (s2, m :: ms)
  end.

(** A frame is neutral when both of its move deltas are zero. *)
Definition neutral_frame (a : MoveFrame) : bool :=
  (act_move_x a =? 0)%Z && (act_move_y a =? 0)%Z.

End Main.

(** * Specification-side definitions *)

(** ** Runs of the intent filter *)

(** [_apply_intent_filter] called once per frame over a sequence of raw
    pairs [(raw_mx, raw_my)], with the pairs [(mx, my)] it returns. *)
Fixpoint run_intent (c : Face.FaceController) (raws : list (Z * Z))
    : Face.FaceController * list (Z * Z) :=
  match raws with
  | [] => (c, [])
  | (rx, ry) :: raws' =>
      let '(c1, m) := Face._apply_intent_filter c rx ry in
      let '(c2, ms) := run_intent c1 raws' in
      (c2, m :: ms)
  end.

(** The effective moves of one axis over a run. *)
Definition moves_x (c : Face.FaceController) (raws : list (Z * Z)) : list Z :=
  map fst (snd (run_intent c raws)).
Definition moves_y (c : Face.FaceController) (raws : list (Z * Z)) : list Z :=
  map snd (snd (run_intent c raws)).

(** The reset state of the filter: what [__init__] and [calibrate] leave. *)
Definition intent_reset (c : Face.FaceController) : Prop :=
  Face._mx_run c = 0%Z /\ Face._mx_last c = 0%Z /\
  Face._my_run c = 0%Z /\ Face._my_last c = 0%Z.

(** The branch the source writes once for [raw_mx] and once for [raw_my]:
    the new run counter, the new last value and the emitted move.  Used to
    reason about the two axes with one set of lemmas. *)
Definition axis_step (run last raw : Z) : Z * Z * Z :=
  if (raw =? 0)%Z then (0%Z, 0%Z, 0%Z)
  else
    let '(run, last) :=
      if (raw =? last)%Z then ((run + 1)%Z, last) else (1%Z, raw) in
    (run, last, if (run >=? Face.INTENT_FRAMES)%Z then raw else 0%Z).

Fixpoint axis_run (run last : Z) (raws : list Z) : Z * Z * list Z :=
  match raws with
  | [] => (run, last, [])
  | r :: raws' =>
      let '(run1, last1, m) := axis_step run last r in
      let '(run2, last2, ms) := axis_run run1 last1 raws' in
      (run2, last2, m :: ms)
  end.

(** ** Runs of the controller *)








(** [read_actions] called on [n] frames in a row. *)
Fixpoint read_many (c : Face.FaceController) (caps : list Face.Capture)
    : Face.FaceController * list (option Face.Actions) :=
  match caps with
  | [] => (c, [])
  | cap :: caps' =>
      let '(c1, a) := Face.read_actions c cap in
      let '(c2, acts) := read_many c1 caps' in
      (c2, a :: acts)
  end.

(** The appends to the two eye-ratio windows, common to every frame with a
    face, and the test that sets an eye flag. *)
Definition with_ears (c : Face.FaceController) (lm : Face.Landmarks)
    : Face.FaceController :=
  Face.set_ear_hists c
    (Py.deque_append Face.EAR_MAXLEN (Face.earL_hist c) (Face.ear_left lm))
    (Py.deque_append Face.EAR_MAXLEN (Face.earR_hist c) (Face.ear_right lm)).

Definition eye_closed (baseline : option Q) (hist : list Q) : bool :=
  match baseline with
  | Some b => Py.ltb (Py.mean hist) (b * Face.BLINK_DROP)
  | None => false
  end.

(** The appends to the three angle windows on a frame with a pose. *)
Definition with_pose (c : Face.FaceController) (p : Q * Q * Q)
    : Face.FaceController :=
  let '(pitch, yaw, roll) := p in
  Face.set_pose_hists c
    (Py.deque_append Face.ANGLE_MAXLEN (Face.pitch_hist c) pitch)
    (Py.deque_append Face.ANGLE_MAXLEN (Face.yaw_hist c) yaw)
    (Py.deque_append Face.ANGLE_MAXLEN (Face.roll_hist c) roll).

(** ** The hold-gesture machines *)

(** The branch the two hold handlers share, on the pair (start, armed) of
    one machine: the new pair and the returned flag.  [cond] is the
    machine's condition on this frame.  Used to reason about the two
    handlers with one set of lemmas. *)
Definition hold_step (th : Q) (start : option Q) (armed : bool)
    (now : Q) (cond : bool) : option Q * bool * bool :=
  if cond then
    let '(start, armed) :=
      match start with
      | None => (Some now, true)
      | Some _ => (start, armed)
      end in
    match start with
    | Some t0 =>
        if Py.geb (now - t0) th && armed then (start, false, true)
        else (start, armed, false)
    | None => (start, armed, false)
    end
  else (None, true, false).

Fixpoint hold_run (th : Q) (start : option Q) (armed : bool)
    (fs : list (Q * bool)) : option Q * bool * list bool :=
  match fs with
  | [] => (start, armed, [])
  | (t, cond) :: fs' =>
      let '(start1, armed1, b) := hold_step th start armed t cond in
      let '(start2, armed2, bs) := hold_run th start1 armed1 fs' in
      (start2, armed2, b :: bs)
  end.

(** What each handler sees of a frame: the time and its condition.  The
    place machine is gated by [game_over]. *)
Definition reset_view (f : Input.EyeFrame) : Q * bool :=
  (Input.now f, Input.right_only f).
Definition place_view (f : Input.EyeFrame) : Q * bool :=
  (Input.now f, negb (Input.game_over f) && Input.both f).







(** The longest suffix of a list on which [p] holds. *)
Fixpoint take_while {A : Type} (p : A -> bool) (l : list A) : list A :=
  match l with
  | [] => []
  | x :: l' => if p x then x :: take_while p l' else []
  end.

Definition trailing {A : Type} (p : A -> bool) (l : list A) : list A :=
  rev (take_while p (rev l)).

(** Whether the gesture has fired during the current continuous hold: some
    frame of the block of condition-true frames that ends at the latest frame
    returned true. *)
Definition fired_in_current_hold {F : Type} (cond : F -> bool)
    (fs : list F) (outs : list bool) : bool :=
  existsb snd (trailing (fun x => cond (fst x)) (combine fs outs)).

(** ** The movement latch *)

(** Somewhere a list of frames has two neutral frames in a row. *)
Definition two_neutral_in_a_row (fs : list Main.MoveFrame) : Prop :=
  exists m1 x y m2,
    fs = m1 ++ x :: y :: m2 /\
    Main.neutral_frame x = true /\ Main.neutral_frame y = true.

(** ** Further specification-side definitions *)

(** The length of the block of equal nonzero values that ends a sequence of
    raw inputs: 0 when the sequence is empty or ends in 0. *)
Definition block_len (xs : list Z) : Z :=
  if (List.last xs 0 =? 0)%Z then 0%Z
  else Z.of_nat (length (trailing (fun x => (x =? List.last xs 0)%Z) xs)).

(** ** Python list indexing *)

From Stdlib Require String.

Module PyList.

(** [l[i]]: indices from [-len] to [len - 1] are valid, negative ones count
    from the end; any other index raises [IndexError], modelled by [None]. *)
Definition index {A : Type} (l : list A) (i : Z) : option nat :=
  let n := Z.of_nat (length l) in
  if ((0 <=? i) && (i <? n))%Z then Some (Z.to_nat i)
  else if ((- n <=? i) && (i <? 0))%Z then Some (Z.to_nat (n + i))
  else None.

Definition getitem {A : Type} (l : list A) (i : Z) : option A :=
  match index l i with
  | Some k => nth_error l k
  | None => None
  end.

Fixpoint replace {A : Type} (l : list A) (k : nat) (v : A) : list A :=
  match l, k with
  | [], _ => []
  | _ :: t, 0%nat => v :: t
  | x :: t, S k' => x :: replace t k' v
  end.

(** [l[i] = v]. *)
Definition setitem {A : Type} (l : list A) (i : Z) (v : A) : option (list A) :=
  match index l i with
  | Some k => Some (replace l k v)
  | None => None
  end.

(** [random.choice(l)] on a non-empty list, with the draw [rnd] made by the
    generator given as an input; on an empty list it raises. *)
Definition choice {A : Type} (rnd : nat) (l : list A) : option A :=
  match l with
  | [] => None
  | _ => nth_error l (rnd mod length l)
  end.

End PyList.

(** ** ttt_game.py *)

Module Difficulty.
Import String.
Definition EASY : String.string := "EASY".
Definition HARD : String.string := "HARD".
End Difficulty.

Module Game.

(** A raised exception is [None]; [x <- e ;; k] runs [k] on the value of
    [e] unless [e] raised. *)
Definition bind {A B : Type} (e : option A) (k : A -> option B) : option B :=
  match e with
  | Some x => k x
  | None => None
  end.

Notation "x <- e ;; k" := (bind e (fun x => k))
  (at level 61, e at next level, right associativity).
Notation "' p <- e ;; k" := (bind e (fun x => let 'p := x in k))
  (at level 61, p pattern, e at next level, right associativity).

(** The strings ["X"] and ["O"]; a cell holds [None] or one of them. *)
Inductive Mark := X | O.
Definition Cell : Type := option Mark.
Definition Board : Type := list (list Cell).

(** The values of [self.winner] other than [None]. *)
Inductive Outcome := Won (m : Mark) | DRAW.

Definition mark_eqb (a b : Mark) : bool :=
  match a, b with
  | X, X | O, O => true
  | _, _ => false
  end.

(** [==] on cell values. *)
Definition cell_eqb (a b : Cell) : bool :=
  match a, b with
  | None, None => true
  | Some x, Some y => mark_eqb x y
  | _, _ => false
  end.

Definition is_none (c : Cell) : bool :=
  match c with None => true | Some _ => false end.

Record TicTacToeGame := {
  difficulty : String.string;
  board : Board;
  cursor : Z * Z;                       (* the list [[row, col]] *)
  winner : option Outcome;
  win_line : option (list (Z * Z))
}.

(** [board[r][c]] and [board[r][c] = v]. *)
Definition get (b : Board) (r c : Z) : option Cell :=
  row <- PyList.getitem b r ;; PyList.getitem row c.

Definition set (b : Board) (r c : Z) (v : Cell) : option Board :=
  row <- PyList.getitem b r ;;
  row' <- PyList.setitem row c v ;;
  PyList.setitem b r row'.

(** [reset]. *)
Definition empty_board : Board :=
  [[None; None; None]; [None; None; None]; [None; None; None]].

Definition reset (g : TicTacToeGame) : TicTacToeGame := {|
  difficulty := difficulty g;
  board := empty_board;
  cursor := (1, 1)%Z;
  winner := None;
  win_line := None
|}.

(** [__init__]. *)
Definition init (d : String.string) : TicTacToeGame := {|
  difficulty := d;
  board := empty_board;
  cursor := (1, 1)%Z;
  winner := None;
  win_line := None
|}.

(** [range(3)] and the pairs [(r, c) for r in range(3) for c in range(3)]. *)
Definition range3 : list Z := [0; 1; 2]%Z.
Definition all_cells : list (Z * Z) :=
  flat_map (fun r => map (fun c => (r, c)) range3) range3.

(** [[p for p in cells if board[p[0]][p[1]] is None]]. *)
Fixpoint open_of (b : Board) (cells : list (Z * Z)) : option (list (Z * Z)) :=
  match cells with
  | [] => Some []
  | (r, c) :: t =>
      v <- get b r c ;;
      rest <- open_of b t ;;
      Some (if is_none v then (r, c) :: rest else rest)
  end.

Definition empties (b : Board) : option (list (Z * Z)) := open_of b all_cells.

(** The eight lines in the order the source visits them: rows, columns,
    the diagonal, the anti-diagonal. *)
Definition win_lines : list (list (Z * Z)) :=
  (map (fun r => [(r, 0); (r, 1); (r, 2)]) range3 ++
   map (fun c => [(0, c); (1, c); (2, c)]) range3 ++
   [[(0, 0); (1, 1); (2, 2)]; [(0, 2); (1, 1); (2, 0)]])%Z.

(** [board[a] == board[b] == board[c] == p], read left to right with the
    short circuit of a chained comparison. *)
Definition chain3 (b : Board) (line : list (Z * Z)) (p : Mark) : option bool :=
  match line with
  | [(r0, c0); (r1, c1); (r2, c2)] =>
      v0 <- get b r0 c0 ;;
      v1 <- get b r1 c1 ;;
      if cell_eqb v0 v1 then
        v2 <- get b r2 c2 ;;
        Some (cell_eqb v1 v2 && cell_eqb v2 (Some p))
      else Some false
  | _ => None
  end.

(** [is_win] of [ai_move_smart]. *)
Fixpoint any_line (b : Board) (p : Mark) (lines : list (list (Z * Z)))
    : option bool :=
  match lines with
  | [] => Some false
  | line :: t =>
      w <- chain3 b line p ;;
      if w then Some true else any_line b p t
  end.

Definition is_win (b : Board) (p : Mark) : option bool :=
  any_line b p win_lines.

(** One of the two probing loops of [ai_move_smart]: each cell in turn is
    set to [p], tested and set back to [None]; the board after the loop and
    the first cell that made [p] win. *)
Fixpoint probe (b : Board) (p : Mark) (cells : list (Z * Z))
    : option (Board * option (Z * Z)) :=
  match cells with
  | [] => Some (b, None)
  | (r, c) :: t =>
      b1 <- set b r c (Some p) ;;
      w <- is_win b1 p ;;
      b2 <- set b1 r c None ;;
      if w then Some (b2, Some (r, c)) else probe b2 p t
  end.

Definition corners : list (Z * Z) := [(0, 0); (0, 2); (2, 0); (2, 2)]%Z.
Definition edges : list (Z * Z) := [(0, 1); (1, 0); (1, 2); (2, 1)]%Z.

(** [ai_move_easy]. *)
Definition ai_move_easy (b : Board) (rnd : nat) : option (option (Z * Z)) :=
  es <- empties b ;;
  match es with
  | [] => Some None
  | _ => mv <- PyList.choice rnd es ;; Some (Some mv)
  end.

(** [ai_move_smart]: the board as the probing leaves it and the move. *)
Definition ai_move_smart (b : Board) (ai human : Mark) (rnd : nat)
    : option (Board * option (Z * Z)) :=
  es <- empties b ;;
  '(b, found) <- probe b ai es ;;
  match found with
  | Some mv => Some (b, Some mv)
  | None =>
      es <- empties b ;;
      '(b, found) <- probe b human es ;;
      match found with
      | Some mv => Some (b, Some mv)
      | None =>
          centre <- get b 1 1 ;;
          if is_none centre then Some (b, Some (1, 1)%Z)
          else
            open_corners <- open_of b corners ;;
            match open_corners with
            | _ :: _ =>
                mv <- PyList.choice rnd open_corners ;; Some (b, Some mv)
            | [] =>
                open_edges <- open_of b edges ;;
                match open_edges with
                | _ :: _ =>
                    mv <- PyList.choice rnd open_edges ;; Some (b, Some mv)
                | [] => Some (b, None)
                end
            end
      end
  end.

(** The candidates of [check_winner]: each line with the three values read
    on it. *)
Definition candidate (b : Board) (line : list (Z * Z))
    : option (list (Z * Z) * (Cell * Cell * Cell)) :=
  match line with
  | [(r0, c0); (r1, c1); (r2, c2)] =>
      v0 <- get b r0 c0 ;;
      v1 <- get b r1 c1 ;;
      v2 <- get b r2 c2 ;;
      Some (line, (v0, v1, v2))
  | _ => None
  end.

Fixpoint candidates (b : Board) (lines : list (list (Z * Z)))
    : option (list (list (Z * Z) * (Cell * Cell * Cell))) :=
  match lines with
  | [] => Some []
  | line :: t =>
      cand <- candidate b line ;;
      rest <- candidates b t ;;
      Some (cand :: rest)
  end.

(** [vals[0] is not None and vals[0] == vals[1] == vals[2]]. *)
Definition complete (vals : Cell * Cell * Cell) : bool :=
  let '(v0, v1, v2) := vals in
  negb (is_none v0) && (cell_eqb v0 v1 && cell_eqb v1 v2).

(** [all(b[r][c] is not None for ...)], stopping at the first empty cell. *)
Fixpoint all_filled (b : Board) (cells : list (Z * Z)) : option bool :=
  match cells with
  | [] => Some true
  | (r, c) :: t =>
      v <- get b r c ;;
      if is_none v then Some false else all_filled b t
  end.

(** [check_winner]: the pair [(winner, win_line)]. *)
Definition check_winner (b : Board)
    : option (option Outcome * option (list (Z * Z))) :=
  cands <- candidates b win_lines ;;
  match find (fun cand => complete (snd cand)) cands with
  | Some (cells, (v0, _, _)) => Some (option_map Won v0, Some cells)
  | None =>
      full <- all_filled b all_cells ;;
      if full then Some (Some DRAW, None) else Some (None, None)
  end.

(** [place_x]: the new game and the returned flag. *)
Definition place_x (g : TicTacToeGame) : option (TicTacToeGame * bool) :=
  let '(r, c) := cursor g in
  v <- get (board g) r c ;;
  if negb (is_none v) then Some (g, false)
  else
    b <- set (board g) r c (Some X) ;;
    '(w, line) <- check_winner b ;;
    Some ({| difficulty := difficulty g; board := b; cursor := cursor g;
             winner := w; win_line := line |}, true).

(** [maybe_ai_turn], with the generator's draw as an input. *)
Definition maybe_ai_turn (g : TicTacToeGame) (rnd : nat)
    : option TicTacToeGame :=
  match winner g with
  | Some _ => Some g
  | None =>
      '(b, mv) <-
        (if String.eqb (difficulty g) Difficulty.EASY
         then mv <- ai_move_easy (board g) rnd ;; Some (board g, mv)
         else ai_move_smart (board g) O X rnd) ;;
      b <- match mv with
           | Some (r, c) => set b r c (Some O)
           | None => Some b
           end ;;
      '(w, line) <- check_winner b ;;
      Some {| difficulty := difficulty g; board := b; cursor := cursor g;
              winner := w; win_line := line |}
  end.

(** [move_cursor]. *)
Definition move_cursor (g : TicTacToeGame) (dx dy : Z) : TicTacToeGame :=
  let '(row, col) := cursor g in
  let col := if (dx =? -1)%Z then Z.max 0 (col - 1)
             else if (dx =? 1)%Z then Z.min 2 (col + 1)
             else col in
  let row := if (dy =? -1)%Z then Z.min 2 (row + 1)
             else if (dy =? 1)%Z then Z.max 0 (row - 1)
             else row in
  {| difficulty := difficulty g; board := board g; cursor := (row, col);
     winner := winner g; win_line := win_line g |}.

End Game.

(** ** Boards, lines and wins *)

(** A pair of coordinates on the board. *)
Definition in_board (rc : Z * Z) : Prop :=
  (0 <= fst rc <= 2 /\ 0 <= snd rc <= 2)%Z.

(** Three rows of three cells, as [reset] builds them. *)
Definition wf_board (b : Game.Board) : Prop :=
  length b = 3%nat /\ Forall (fun row => length row = 3%nat) b.

Definition wf_game (g : Game.TicTacToeGame) : Prop :=
  wf_board (Game.board g) /\ in_board (Game.cursor g).

(** The cell at [rc] holds [v]. *)
Definition holds (b : Game.Board) (rc : Z * Z) (v : Game.Cell) : Prop :=
  Game.get b (fst rc) (snd rc) = Some v.

(** [p] owns one of the eight lines. *)
Definition wins (b : Game.Board) (p : Game.Mark) : Prop :=
  exists line, In line Game.win_lines /\
               forall rc, In rc line -> holds b rc (Some p).

(** No cell is empty. *)
Definition full (b : Game.Board) : Prop :=
  forall rc, in_board rc -> exists m, holds b rc (Some m).

(** [b'] is [b] with the empty cell [rc] given to [p]. *)
Definition placed (b : Game.Board) (rc : Z * Z) (p : Game.Mark)
    (b' : Game.Board) : Prop :=
  in_board rc /\ holds b rc None /\
  Game.set b (fst rc) (snd rc) (Some p) = Some b'.

(** [p] has an empty cell that completes a line. *)
Definition can_win (b : Game.Board) (p : Game.Mark) : Prop :=
  exists rc b', placed b rc p b' /\ wins b' p.

(** * The hold handlers and the eye test on IEEE doubles *)

(** Which frame of a hold fires, and whether an eye counts as closed at the
    edge of the drop, depend on how [now - start], [0.35], [3.0] and
    [baseline * 0.72] round.  The modules below embed the code that computes
    them once more, with Python [float] as the binary64 numbers of
    [PrimFloat]: a literal denotes the nearest double, [-], [*], [+] and [/]
    round to nearest-even, and [<?], [<=?] are the IEEE comparisons (false
    whenever an operand is a NaN), as in CPython. *)

From Stdlib Require PrimFloat.
Set Warnings "-inexact-float".

Module Py64.

Import PrimFloat.
Local Open Scope float_scope.

(** [a < b], [a > b] and [a >= b] on floats. *)
Definition ltb (a b : float) : bool := (a <? b).
Definition gtb (a b : float) : bool := (b <? a).
Definition geb (a b : float) : bool := (b <=? a).

(** [collections.deque(maxlen=n).append(x)]. *)
Definition deque_append {A : Type} (maxlen : nat) (d : list A) (x : A)
    : list A :=
  let d' := d ++ [x] in
  if Nat.ltb maxlen (length d') then tl d' else d'.

(** The mean with the sum taken left to right, one way [np.mean] may
    evaluate: numpy chooses the order of the additions, so the embedding of
    [FaceController] below takes [np.mean] as a parameter and this function
    is only used to run it.  On a sequence of one element every order gives
    that element. *)
Definition count (l : list float) : float :=
  fold_left (fun n _ => n + 1) l 0.
Definition mean_seq (l : list float) : float :=
  fold_left add l 0 / count l.

End Py64.

(** ** config.py, on doubles *)

Module cfg64.

Import PrimFloat.
Local Open Scope float_scope.

Definition PLACE_HOLD_SECONDS : float := 0.35.
Definition RESET_HOLD_SECONDS : float := 3.0.

End cfg64.

(** ** input_state.py, on doubles *)

Module Input64.

Import PrimFloat.
Local Open Scope float_scope.

Record InputState := {
  last_face_seen_time : float;
  move_armed : bool;
  neutral_run : Z;
  both_hold_start : option float;
  both_hold_armed : bool;
  right_only_hold_start : option float;
  right_only_hold_armed : bool
}.

(** The dataclass defaults. *)
Definition init : InputState := {|
  last_face_seen_time := 0.0;
  move_armed := true;
  neutral_run := 0;
  both_hold_start := None;
  both_hold_armed := true;
  right_only_hold_start := None;
  right_only_hold_armed := true
|}.

Definition set_move (s : InputState) (armed : bool) (run : Z) : InputState := {|
  last_face_seen_time := last_face_seen_time s;
  move_armed := armed;
  neutral_run := run;
  both_hold_start := both_hold_start s;
  both_hold_armed := both_hold_armed s;
  right_only_hold_start := right_only_hold_start s;
  right_only_hold_armed := right_only_hold_armed s
|}.

Definition set_both (s : InputState) (start : option float) (armed : bool)
    : InputState := {|
  last_face_seen_time := last_face_seen_time s;
  move_armed := move_armed s;
  neutral_run := neutral_run s;
  both_hold_start := start;
  both_hold_armed := armed;
  right_only_hold_start := right_only_hold_start s;
  right_only_hold_armed := right_only_hold_armed s
|}.

Definition set_right_only (s : InputState) (start : option float)
    (armed : bool) : InputState := {|
  last_face_seen_time := last_face_seen_time s;
  move_armed := move_armed s;
  neutral_run := neutral_run s;
  both_hold_start := both_hold_start s;
  both_hold_armed := both_hold_armed s;
  right_only_hold_start := start;
  right_only_hold_armed := armed
|}.

(** [on_calibrate]. *)
Definition on_calibrate (s : InputState) : InputState :=
  let s := set_move s true 0%Z in
  let s := set_both s None true in
  set_right_only s None true.

(** [handle_right_only_hold]: the new state and the returned flag. *)
Definition handle_right_only_hold (s : InputState) (now : float)
    (right_closed left_closed : bool) (reset_hold_seconds : float)
    : InputState * bool :=
  if right_closed && negb left_closed then
    let s := match right_only_hold_start s with
             | None => set_right_only s (Some now) true
             | Some _ => s
             end in
    match right_only_hold_start s with
    | Some start =>
        if Py64.geb (now - start) reset_hold_seconds && right_only_hold_armed s
        then (set_right_only s (right_only_hold_start s) false, true)
        else (s, false)
    | None => (s, false)   (* not reached: the start was set just above *)
    end
  else (set_right_only s None true, false).

(** [handle_both_hold]: the new state and the returned flag. *)
Definition handle_both_hold (s : InputState) (now : float)
    (right_closed left_closed : bool) (place_hold_seconds : float)
    (game_over : bool) : InputState * bool :=
  if game_over then (set_both s None true, false)
  else if left_closed && right_closed then
    let s := match both_hold_start s with
             | None => set_both s (Some now) true
             | Some _ => s
             end in
    match both_hold_start s with
    | Some start =>
        if Py64.geb (now - start) place_hold_seconds && both_hold_armed s
        then (set_both s (both_hold_start s) false, true)
        else (s, false)
    | None => (s, false)   (* not reached: the start was set just above *)
    end
  else (set_both s None true, false).

(** One frame of eye input for the hold handlers, with the caller's
    [game_over] flag (read by [handle_both_hold] only). *)
Record EyeFrame := {
  now : float;
  right_closed : bool;
  left_closed : bool;
  game_over : bool
}.

(** The condition that drives each machine. *)
Definition right_only (f : EyeFrame) : bool :=
  right_closed f && negb (left_closed f).
Definition both (f : EyeFrame) : bool :=
  left_closed f && right_closed f.

(** The handlers called once per frame over a sequence of frames, with the
    flags they return. *)
Fixpoint run_right_only (th : float) (s : InputState) (fs : list EyeFrame)
    : InputState * list bool :=
  match fs with
  | [] => (s, [])
  | f :: fs' =>
      let '(s1, b) :=
        handle_right_only_hold s (now f) (right_closed f) (left_closed f) th in
      let '(s2, bs) := run_right_only th s1 fs' in
      (s2, b :: bs)
  end.

Fixpoint run_both (th : float) (s : InputState) (fs : list EyeFrame)
    : InputState * list bool :=
  match fs with
  | [] => (s, [])
  | f :: fs' =>
      let '(s1, b) :=
        handle_both_hold s (now f) (right_closed f) (left_closed f) th
                         (game_over f) in
      let '(s2, bs) := run_both th s1 fs' in
      (s2, b :: bs)
  end.

End Input64.

(** ** face_controller.py, on doubles *)

Module Face64.

Import PrimFloat.
Local Open Scope float_scope.

(** The mutable attributes of a [FaceController] instance. *)
Record FaceController := {
  yaw_hist : list float;
  pitch_hist : list float;
  roll_hist : list float;
  earL_hist : list float;
  earR_hist : list float;
  baseline_earL : option float;
  baseline_earR : option float;
  baseline_yaw : float;
  baseline_pitch : float;
  baseline_roll : float;
  _mx_run : Z;
  _my_run : Z;
  _mx_last : Z;
  _my_last : Z
}.

(** Attributes assigned once in [__init__] and never written again. *)
Definition ANGLE_MAXLEN : nat := 9.
Definition EAR_MAXLEN : nat := 5.
Definition INVERT_X : bool := true.
Definition YAW_TH : float := 18.0.
Definition PITCH_TH : float := 20.0.
Definition PITCH_DEADZONE : float := 10.0.
Definition INTENT_FRAMES : Z := 3.
Definition BLINK_DROP : float := 0.72.

(** [__init__]. *)
Definition init : FaceController := {|
  yaw_hist := []; pitch_hist := []; roll_hist := [];
  earL_hist := []; earR_hist := [];
  baseline_earL := None; baseline_earR := None;
  baseline_yaw := 0.0; baseline_pitch := 0.0; baseline_roll := 0.0;
  _mx_run := 0; _my_run := 0; _mx_last := 0; _my_last := 0
|}.

(** Attribute assignments, grouped as the source groups them. *)
Definition set_baselines (c : FaceController)
    (bL bR : option float) (by_ bp br : float) : FaceController := {|
  yaw_hist := yaw_hist c; pitch_hist := pitch_hist c; roll_hist := roll_hist c;
  earL_hist := earL_hist c; earR_hist := earR_hist c;
  baseline_earL := bL; baseline_earR := bR;
  baseline_yaw := by_; baseline_pitch := bp; baseline_roll := br;
  _mx_run := _mx_run c; _my_run := _my_run c;
  _mx_last := _mx_last c; _my_last := _my_last c
|}.

Definition set_intent (c : FaceController)
    (xrun yrun xlast ylast : Z) : FaceController := {|
  yaw_hist := yaw_hist c; pitch_hist := pitch_hist c; roll_hist := roll_hist c;
  earL_hist := earL_hist c; earR_hist := earR_hist c;
  baseline_earL := baseline_earL c; baseline_earR := baseline_earR c;
  baseline_yaw := baseline_yaw c; baseline_pitch := baseline_pitch c;
  baseline_roll := baseline_roll c;
  _mx_run := xrun; _my_run := yrun; _mx_last := xlast; _my_last := ylast
|}.

Definition set_pose_hists (c : FaceController)
    (ph yh rh : list float) : FaceController := {|
  yaw_hist := yh; pitch_hist := ph; roll_hist := rh;
  earL_hist := earL_hist c; earR_hist := earR_hist c;
  baseline_earL := baseline_earL c; baseline_earR := baseline_earR c;
  baseline_yaw := baseline_yaw c; baseline_pitch := baseline_pitch c;
  baseline_roll := baseline_roll c;
  _mx_run := _mx_run c; _my_run := _my_run c;
  _mx_last := _mx_last c; _my_last := _my_last c
|}.

Definition set_ear_hists (c : FaceController)
    (lh rh : list float) : FaceController := {|
  yaw_hist := yaw_hist c; pitch_hist := pitch_hist c; roll_hist := roll_hist c;
  earL_hist := lh; earR_hist := rh;
  baseline_earL := baseline_earL c; baseline_earR := baseline_earR c;
  baseline_yaw := baseline_yaw c; baseline_pitch := baseline_pitch c;
  baseline_roll := baseline_roll c;
  _mx_run := _mx_run c; _my_run := _my_run c;
  _mx_last := _mx_last c; _my_last := _my_last c
|}.

(** [_apply_intent_filter]: the new state and the pair [(mx, my)]. *)
Definition _apply_intent_filter (c : FaceController) (raw_mx raw_my : Z)
    : FaceController * (Z * Z) :=
  let '(xrun, xlast, mx) :=
    if (raw_mx =? 0)%Z then (0%Z, 0%Z, 0%Z)
    else
      let '(run, last) :=
        if (raw_mx =? _mx_last c)%Z then ((_mx_run c + 1)%Z, _mx_last c)
        else (1%Z, raw_mx) in
      (run, last, if (run >=? INTENT_FRAMES)%Z then raw_mx else 0%Z) in
  let '(yrun, ylast, my) :=
    if (raw_my =? 0)%Z then (0%Z, 0%Z, 0%Z)
    else
      let '(run, last) :=
        if (raw_my =? _my_last c)%Z then ((_my_run c + 1)%Z, _my_last c)
        else (1%Z, raw_my) in
      (run, last, if (run >=? INTENT_FRAMES)%Z then raw_my else 0%Z) in
  (set_intent c xrun yrun xlast ylast, (mx, my)).

(** The per-frame [actions] dictionary. *)
Record Actions := {
  move_x : Z;
  move_y : Z;
  yaw : float;
  pitch : float;
  roll : float;
  left_eye_closed : bool;
  right_eye_closed : bool;
  face_found : bool
}.

(** The dictionary as it is first built in [read_actions]. *)
Definition neutral : Actions := {|
  move_x := 0; move_y := 0; yaw := 0.0; pitch := 0.0; roll := 0.0;
  left_eye_closed := false; right_eye_closed := false; face_found := false
|}.

(** What the camera, the detector and the two helpers deliver for one
    frame.  For a frame with a face: the value [head_pose_pnp(pts, w, h)]
    returns ([None] or the triple [(pitch, yaw, roll)]) and the two values
    [eye_ear(pts, LEFT_EYE)] and [eye_ear(pts, RIGHT_EYE)]. *)
Inductive Capture :=
| ReadFailed                      (* [ok] of [cap.read()] is false *)
| NoFace                          (* [res.multi_face_landmarks] is empty *)
| FaceSeen (pose : option (float * float * float)) (earL earR : float).

(** The thresholding of the smoothed angles into raw moves. *)
Definition raw_move_x (yaw_s : float) : Z :=
  let raw_mx := if Py64.ltb yaw_s (- YAW_TH) then (-1)%Z
                else if Py64.gtb yaw_s YAW_TH then 1%Z else 0%Z in
  if INVERT_X then (raw_mx * -1)%Z else raw_mx.

Definition raw_move_y (pitch_s : float) : Z :=
  if Py64.ltb pitch_s (- PITCH_TH) then 1%Z
  else if Py64.gtb pitch_s PITCH_TH then (-1)%Z
  else if Py64.ltb (abs pitch_s) PITCH_DEADZONE then 0%Z
  else 0%Z.

Section WithMean.

(** [float(np.mean(d))] of a deque of Python floats. *)
Variable np_mean : list float -> float.

(** [calibrate]. *)
Definition calibrate (c : FaceController) : FaceController :=
  let bL := if Nat.ltb 0 (length (earL_hist c))
            then Some (np_mean (earL_hist c)) else baseline_earL c in
  let bR := if Nat.ltb 0 (length (earR_hist c))
            then Some (np_mean (earR_hist c)) else baseline_earR c in
  let by_ := if Nat.ltb 0 (length (yaw_hist c))
             then np_mean (yaw_hist c) else baseline_yaw c in
  let bp := if Nat.ltb 0 (length (pitch_hist c))
            then np_mean (pitch_hist c) else baseline_pitch c in
  let br := if Nat.ltb 0 (length (roll_hist c))
            then np_mean (roll_hist c) else baseline_roll c in
  let c := set_baselines c bL bR by_ bp br in
  set_intent c 0%Z 0%Z 0%Z 0%Z.

(** [read_actions]: the new controller state and the returned value
    ([None] when the camera gave no frame). *)
Definition read_actions (c : FaceController) (cap : Capture)
    : FaceController * option Actions :=
  match cap with
  | ReadFailed => (c, None)
  | NoFace => (c, Some neutral)
  | FaceSeen pose earL earR =>
      let '(c, (pitch_s, yaw_s, roll_s), (mx, my)) :=
        match pose with
        | Some (pitch, yaw, roll) =>
            let c := set_pose_hists c
                       (Py64.deque_append ANGLE_MAXLEN (pitch_hist c) pitch)
                       (Py64.deque_append ANGLE_MAXLEN (yaw_hist c) yaw)
                       (Py64.deque_append ANGLE_MAXLEN (roll_hist c) roll) in
            let pitch_s := np_mean (pitch_hist c) - baseline_pitch c in
            let yaw_s := np_mean (yaw_hist c) - baseline_yaw c in
            let roll_s := np_mean (roll_hist c) - baseline_roll c in
            let raw_mx := raw_move_x yaw_s in
            let raw_my := raw_move_y pitch_s in
            let '(c, m) := _apply_intent_filter c raw_mx raw_my in
            (c, (pitch_s, yaw_s, roll_s), m)
        | None => (c, (0.0, 0.0, 0.0), (0%Z, 0%Z))
        end in
      let c := set_ear_hists c
                 (Py64.deque_append EAR_MAXLEN (earL_hist c) earL)
                 (Py64.deque_append EAR_MAXLEN (earR_hist c) earR) in
      let earL_s := np_mean (earL_hist c) in
      let earR_s := np_mean (earR_hist c) in
      let lc := match baseline_earL c with
                | Some b => Py64.ltb earL_s (b * BLINK_DROP)
                | None => false
                end in
      let rc := match baseline_earR c with
                | Some b => Py64.ltb earR_s (b * BLINK_DROP)
                | None => false
                end in
      (c, Some {| move_x := mx; move_y := my;
                  yaw := yaw_s; pitch := pitch_s; roll := roll_s;
                  left_eye_closed := lc; right_eye_closed := rc;
                  face_found := true |})
  end.

End WithMean.

End Face64.

(** ** The hold machines on doubles: specification-side definitions *)

Section Latch.

Context {T : Type}.

(** [reach now t0]: the handler's test that the hold begun at [t0] has lasted
    the threshold at [now]. *)
Variable reach : T -> T -> bool.

(** The branch the two hold handlers share, on the pair (start, armed) of
    one machine: the new pair and the returned flag.  Used to reason about
    the two handlers with one set of lemmas. *)
Definition latch_step (start : option T) (armed : bool) (now : T)
    (cond : bool) : option T * bool * bool :=
  if cond then
    let '(start, armed) :=
      match start with
      | None => (Some now, true)
      | Some _ => (start, armed)
      end in
    match start with
    | Some t0 =>
        if reach now t0 && armed then (start, false, true)
        else (start, armed, false)
    | None => (start, armed, false)
    end
  else (None, true, false).

Fixpoint latch_run (start : option T) (armed : bool) (fs : list (T * bool))
    : option T * bool * list bool :=
  match fs with
  | [] => (start, armed, [])
  | (t, cond) :: fs' =>
      let '(start1, armed1, b) := latch_step start armed t cond in
      let '(start2, armed2, bs) := latch_run start1 armed1 fs' in
      (start2, armed2, b :: bs)
  end.

(** The flags expected over one continuous hold that began at time [t0],
    given the times of its frames: true on the first frame that passes the
    test, false on every other frame. *)
Fixpoint first_hit (t0 : T) (ts : list T) : list bool :=
  match ts with
  | [] => []
  | t :: ts' =>
      if reach t t0 then true :: map (fun _ => false) ts'
      else false :: first_hit t0 ts'
  end.

End Latch.

(** The test both handlers make: [(now - start) >= threshold], with the
    subtraction and the comparison of doubles. *)
Definition lasted (th now start : PrimFloat.float) : bool :=
  Py64.geb (PrimFloat.sub now start) th.

(** What each handler sees of a frame. *)
Definition reset_view64 (f : Input64.EyeFrame) : PrimFloat.float * bool :=
  (Input64.now f, Input64.right_only f).
Definition place_view64 (f : Input64.EyeFrame) : PrimFloat.float * bool :=
  (Input64.now f, negb (Input64.game_over f) && Input64.both f).

Definition expected_hold64 (th : PrimFloat.float) (h : list Input64.EyeFrame)
    : list bool :=
  match h with
  | [] => []
  | f0 :: _ => first_hit (lasted th) (Input64.now f0) (map Input64.now h)
  end.

(** A sequence of frames as holds separated by releases: each segment is a
    block of frames on which the condition holds, followed by a non-empty
    block on which it does not. *)
Definition Segment64 : Type := list Input64.EyeFrame * list Input64.EyeFrame.

Definition frames_of64 (segs : list Segment64) : list Input64.EyeFrame :=
  flat_map (fun seg => fst seg ++ snd seg) segs.

Definition expected_of64 (th : PrimFloat.float) (segs : list Segment64)
    : list bool :=
  flat_map (fun seg => expected_hold64 th (fst seg) ++
                       map (fun _ => false) (snd seg))
           segs.

Definition well_segmented64 (holding : Input64.EyeFrame -> bool)
    (segs : list Segment64) : Prop :=
  Forall (fun seg =>
            Forall (fun f => holding f = true) (fst seg) /\
            Forall (fun f => holding f = false) (snd seg) /\
            snd seg <> []) segs.

(** What the specification asks of a hold machine run by [run] with
    threshold [th], where [idle] says that no hold is in progress,
    [admissible] restricts the frames considered and [holding] is the
    machine's condition.  The elapsed time of a frame is the double
    [now - start] the handler computes, and "at least the threshold" is the
    handler's comparison [>=] of that double with the double [th].
    - Over one continuous hold [f0 :: h] begun in an idle state, the flag
      returned on frame [i] is true exactly when the elapsed time of frame
      [i] since [f0] is at least [th] and that of no earlier frame is; if
      some frame reaches [th] exactly one flag is true; if none does every
      flag is false.
    - Over any sequence of holds separated by releases, followed by a last
      hold, the flags are those expected of each hold on its own, and false
      on every release frame. *)
Definition fires_once_per_hold64
    (run : Input64.InputState -> list Input64.EyeFrame ->
           Input64.InputState * list bool)
    (idle : Input64.InputState -> Prop)
    (admissible : Input64.EyeFrame -> Prop)
    (holding : Input64.EyeFrame -> bool) (th : PrimFloat.float) : Prop :=
  (forall s f0 h,
      idle s ->
      Forall admissible (f0 :: h) ->
      Forall (fun f => holding f = true) (f0 :: h) ->
      let outs := snd (run s (f0 :: h)) in
      let elapsed := fun k =>
        PrimFloat.sub (nth k (map Input64.now (f0 :: h)) (Input64.now f0))
                      (Input64.now f0) in
      (forall i,
          nth i outs false = true <->
          (i < length (f0 :: h))%nat /\ Py64.geb (elapsed i) th = true /\
          forall k, (k < i)%nat -> Py64.geb (elapsed k) th = false) /\
      ((exists f, In f (f0 :: h) /\
                  Py64.geb (PrimFloat.sub (Input64.now f) (Input64.now f0)) th
                  = true) ->
       count_occ bool_dec outs true = 1%nat) /\
      ((forall f, In f (f0 :: h) ->
                  Py64.geb (PrimFloat.sub (Input64.now f) (Input64.now f0)) th
                  = false) ->
       outs = map (fun _ => false) (f0 :: h))) /\
  (forall s segs last,
      idle s ->
      Forall admissible (frames_of64 segs ++ last) ->
      well_segmented64 holding segs ->
      Forall (fun f => holding f = true) last ->
      snd (run s (frames_of64 segs ++ last)) =
      expected_of64 th segs ++ expected_hold64 th last).

(** * Properties *)

(** ** Float comparisons and the float remainder *)

Section PyFacts.

Open Scope Q_scope.

Lemma ltb_true (a b : Q) : Py.ltb a b = true <-> a < b.
Proof.
  unfold Py.ltb. rewrite negb_true_iff, <- not_true_iff_false, Qle_bool_iff.
  split; [apply Qnot_le_lt | apply Qlt_not_le].
Qed.

Lemma ltb_false (a b : Q) : Py.ltb a b = false <-> b <= a.
Proof.
  unfold Py.ltb. rewrite negb_false_iff. apply Qle_bool_iff.
Qed.

Lemma gtb_true (a b : Q) : Py.gtb a b = true <-> b < a.
Proof. apply ltb_true. Qed.

Lemma gtb_false (a b : Q) : Py.gtb a b = false <-> a <= b.
Proof. apply ltb_false. Qed.

Lemma geb_true (a b : Q) : Py.geb a b = true <-> b <= a.
Proof. apply Qle_bool_iff. Qed.

Lemma geb_false (a b : Q) : Py.geb a b = false <-> a < b.
Proof.
  unfold Py.geb. rewrite <- not_true_iff_false, Qle_bool_iff.
  split; [apply Qnot_le_lt | apply Qlt_not_le].
Qed.

(** The remainder by 360 lies in [[0, 360)]. *)
Lemma fmod_360_range (x : Q) : 0 <= Py.fmod x 360 /\ Py.fmod x 360 < 360.
Proof.
  unfold Py.fmod.
  pose proof (Qfloor_le (x / 360)) as Hlo.
  pose proof (Qlt_floor (x / 360)) as Hhi.
  rewrite inject_Z_plus in Hhi.
  assert (Hx : x == 360 * (x / 360)) by field.
  set (y := x / 360) in *.
  set (f := inject_Z (Qfloor y)) in *.
  change (inject_Z 1) with 1 in Hhi.
  split; lra.
Qed.

End PyFacts.

(** ** Angle wrapping (C3) *)

Section Wrapping.

Open Scope Q_scope.
Import Face.

(** In exact arithmetic the yaw wrap lands in [[-180, 180)]: the lower end
    is reached (at 180 and at -180), the upper end is not. *)
Lemma wrap_yaw_range (deg : Q) : -180 <= wrap_yaw deg /\ wrap_yaw deg < 180.
Proof.
  unfold wrap_yaw.
  destruct (fmod_360_range (deg + 180)) as [Hlo Hhi].
  split; lra.
Qed.

(** [wrap_human_angle] lands in the closed interval [[-90, 90]]. *)
Lemma wrap_human_angle_range (deg : Q) :
  -90 <= wrap_human_angle deg /\ wrap_human_angle deg <= 90.
Proof.
  unfold wrap_human_angle.
  destruct (fmod_360_range (deg + 180)) as [Hlo Hhi].
  set (d := Py.fmod (deg + 180) 360 - 180) in *.
  assert (Hd : -180 <= d /\ d < 180) by (unfold d; split; lra).
  destruct (Py.gtb d 90) eqn:Hgt.
  - apply gtb_true in Hgt. split; lra.
  - apply gtb_false in Hgt.
    destruct (Py.ltb d (-90)) eqn:Hlt.
    + apply ltb_true in Hlt. split; lra.
    + apply ltb_false in Hlt. split; lra.
Qed.

(** C3, as stated, fails: the yaw wrap sends 180 to -180, which is outside
    [(-180, 180]], and [wrap_human_angle] sends -90 to -90, which is outside
    [(-90, 90]].  Both inputs lie in [[-540, 540]]. *)
Lemma C3_wrap_half_open_counterexample :
  (-540 <= 180 /\ 180 <= 540) /\
  wrap_yaw 180 == -180 /\
  ~ (-180 < wrap_yaw 180 /\ wrap_yaw 180 <= 180) /\
  (-540 <= -90 /\ -90 <= 540) /\
  wrap_human_angle (-90) == -90 /\
  ~ (-90 < wrap_human_angle (-90) /\ wrap_human_angle (-90) <= 90).
Proof.
  repeat split; try (vm_compute; congruence).
  - intros [H _]. vm_compute in H. discriminate.
  - intros [H _]. vm_compute in H. discriminate.
Qed.

(** C3, amended: for every angle in [[-540, 540]] the yaw wrap of
    [head_pose_pnp] lies in the closed interval [[-180, 180]] and
    [wrap_human_angle] lies in the closed interval [[-90, 90]]. *)
Theorem C3_wrap_closed_intervals (deg : Q) :
  -540 <= deg -> deg <= 540 ->
  (-180 <= wrap_yaw deg /\ wrap_yaw deg <= 180) /\
  (-90 <= wrap_human_angle deg /\ wrap_human_angle deg <= 90).
Proof.
  intros _ _.
  destruct (wrap_yaw_range deg) as [Hlo Hhi].
  split; [split; lra | apply wrap_human_angle_range].
Qed.

Lemma C3_wrap_closed_intervals_witness :
  (-180 <= wrap_yaw 270 /\ wrap_yaw 270 <= 180) /\
  (-90 <= wrap_human_angle 270 /\ wrap_human_angle 270 <= 90).
Proof.
  apply (C3_wrap_closed_intervals 270); vm_compute; congruence.
Defined.

End Wrapping.

(** ** Directional intent filter (C2) *)

Section IntentFilter.

Import Face.

Lemma apply_intent_axes (c : FaceController) (rx ry : Z) :
  _apply_intent_filter c rx ry =
  let '(xrun, xlast, mx) := axis_step (_mx_run c) (_mx_last c) rx in
  let '(yrun, ylast, my) := axis_step (_my_run c) (_my_last c) ry in
  (set_intent c xrun yrun xlast ylast, (mx, my)).
Proof. reflexivity. Qed.

(** A run of the filter is, axis by axis, a run of [axis_step]. *)
Lemma run_intent_axes (raws : list (Z * Z)) : forall c : FaceController,
  let '(c', ms) := run_intent c raws in
  let '(xr, xl, mxs) := axis_run (_mx_run c) (_mx_last c) (map fst raws) in
  let '(yr, yl, mys) := axis_run (_my_run c) (_my_last c) (map snd raws) in
  _mx_run c' = xr /\ _mx_last c' = xl /\ _my_run c' = yr /\ _my_last c' = yl /\
  map fst ms = mxs /\ map snd ms = mys.
Proof.
  induction raws as [|[rx ry] raws IH]; intros c; simpl.
  - repeat split.
  - rewrite apply_intent_axes.
    destruct (axis_step (_mx_run c) (_mx_last c) rx) as [[xr1 xl1] mx] eqn:Ex.
    destruct (axis_step (_my_run c) (_my_last c) ry) as [[yr1 yl1] my] eqn:Ey.
    specialize (IH (set_intent c xr1 yr1 xl1 yl1)). simpl in IH.
    destruct (run_intent (set_intent c xr1 yr1 xl1 yl1) raws) as [c2 ms].
    destruct (axis_run xr1 xl1 (map fst raws)) as [[xr2 xl2] mxs].
    destruct (axis_run yr1 yl1 (map snd raws)) as [[yr2 yl2] mys].
    simpl. destruct IH as (? & ? & ? & ? & ? & ?).
    repeat split; try assumption; f_equal; assumption.
Qed.

Lemma moves_x_axis (c : FaceController) (raws : list (Z * Z)) :
  moves_x c raws = snd (axis_run (_mx_run c) (_mx_last c) (map fst raws)).
Proof.
  unfold moves_x. pose proof (run_intent_axes raws c) as H.
  destruct (run_intent c raws) as [c' ms].
  destruct (axis_run (_mx_run c) (_mx_last c) (map fst raws)) as [[? ?] ?].
  destruct (axis_run (_my_run c) (_my_last c) (map snd raws)) as [[? ?] ?].
  simpl. tauto.
Qed.

Lemma moves_y_axis (c : FaceController) (raws : list (Z * Z)) :
  moves_y c raws = snd (axis_run (_my_run c) (_my_last c) (map snd raws)).
Proof.
  unfold moves_y. pose proof (run_intent_axes raws c) as H.
  destruct (run_intent c raws) as [c' ms].
  destruct (axis_run (_mx_run c) (_mx_last c) (map fst raws)) as [[? ?] ?].
  destruct (axis_run (_my_run c) (_my_last c) (map snd raws)) as [[? ?] ?].
  simpl. tauto.
Qed.

Lemma axis_run_app (xs ys : list Z) : forall run last,
  axis_run run last (xs ++ ys) =
  let '(run1, last1, ms1) := axis_run run last xs in
  let '(run2, last2, ms2) := axis_run run1 last1 ys in
  (run2, last2, ms1 ++ ms2).
Proof.
  induction xs as [|x xs IH]; intros run last; simpl.
  - destruct (axis_run run last ys) as [[? ?] ?]. reflexivity.
  - destruct (axis_step run last x) as [[r1 l1] m].
    rewrite IH.
    destruct (axis_run r1 l1 xs) as [[r2 l2] ms1].
    destruct (axis_run r2 l2 ys) as [[? ?] ?]. reflexivity.
Qed.

(** After a step the stored last value is the raw value just seen. *)
Lemma axis_step_last (run last raw : Z) :
  snd (fst (axis_step run last raw)) = raw.
Proof.
  unfold axis_step.
  destruct (raw =? 0)%Z eqn:E0; simpl.
  - apply Z.eqb_eq in E0. congruence.
  - destruct (raw =? last)%Z eqn:El; simpl; [apply Z.eqb_eq in El; congruence | reflexivity].
Qed.

Lemma last_nonempty_default (A : Type) (x : A) (xs : list A) (d d' : A) :
  List.last (x :: xs) d = List.last (x :: xs) d'.
Proof.
  revert x. induction xs as [|y xs IH]; intros x; [reflexivity|].
  change (List.last (y :: xs) d = List.last (y :: xs) d'). apply IH.
Qed.

Lemma axis_run_last (xs : list Z) : forall run last,
  snd (fst (axis_run run last xs)) = List.last xs last.
Proof.
  induction xs as [|x xs IH]; intros run last; [reflexivity|].
  cbn [axis_run].
  pose proof (axis_step_last run last x) as Hl.
  destruct (axis_step run last x) as [[r1 l1] m]. simpl in Hl. subst l1.
  specialize (IH r1 x).
  destruct (axis_run r1 x xs) as [[r2 l2] ms]. simpl in *.
  rewrite IH. destruct xs as [|z xs]; [reflexivity|].
  apply last_nonempty_default.
Qed.

(** Inside a run of equal nonzero values the counter counts and the value
    comes out once the counter is at least [INTENT_FRAMES]. *)
Lemma axis_run_repeat (v : Z) (n : nat) : forall run,
  v <> 0%Z ->
  axis_run run v (repeat v n) =
  ((run + Z.of_nat n)%Z, v,
   map (fun i => if (run + Z.of_nat i >=? INTENT_FRAMES)%Z then v else 0%Z)
       (seq 1 n)).
Proof.
  induction n as [|n IH]; intros run Hv.
  - simpl. rewrite Z.add_0_r. reflexivity.
  - cbn [repeat axis_run]. unfold axis_step at 1.
    destruct (v =? 0)%Z eqn:E0; [apply Z.eqb_eq in E0; contradiction|].
    rewrite Z.eqb_refl. rewrite IH by assumption.
    change (seq 1 (S n)) with (1%nat :: seq 2 n).
    rewrite <- (seq_shift n 1). cbn [map]. rewrite map_map.
    replace (run + Z.of_nat 1)%Z with (run + 1)%Z by lia.
    f_equal; [f_equal; lia|].
    f_equal. apply map_ext. intros i.
    replace (run + 1 + Z.of_nat i)%Z with (run + Z.of_nat (S i))%Z by lia.
    reflexivity.
Qed.

Lemma axis_step_fresh (run last v : Z) :
  v <> 0%Z -> last <> v -> axis_step run last v = (1%Z, v, 0%Z).
Proof.
  intros Hv Hl. unfold axis_step.
  destruct (v =? 0)%Z eqn:E0; [apply Z.eqb_eq in E0; contradiction|].
  destruct (v =? last)%Z eqn:El; [apply Z.eqb_eq in El; congruence|].
  reflexivity.
Qed.

Lemma axis_step_zero (run last : Z) : axis_step run last 0 = (0%Z, 0%Z, 0%Z).
Proof. reflexivity. Qed.

(** A run of exactly two equal values, then another value: nothing comes out. *)
Lemma axis_burst_short (run last : Z) (pre : list Z) (v w : Z) :
  v <> 0%Z -> w <> v -> List.last pre last <> v ->
  snd (axis_run run last (pre ++ [v; v; w])) =
  snd (axis_run run last pre) ++ [0; 0; 0]%Z.
Proof.
  intros Hv Hw Hl. rewrite axis_run_app.
  pose proof (axis_run_last pre run last) as Hlast.
  destruct (axis_run run last pre) as [[r1 l1] ms]. simpl in Hlast. subst l1.
  cbn [axis_run]. rewrite (axis_step_fresh r1 _ _ Hv Hl).
  unfold axis_step at 1.
  destruct (v =? 0)%Z eqn:E0; [apply Z.eqb_eq in E0; contradiction|].
  rewrite Z.eqb_refl. simpl.
  destruct (Z.eq_dec w 0) as [->|Hw0].
  - reflexivity.
  - rewrite (axis_step_fresh 2 _ _ Hw0 (not_eq_sym Hw)). reflexivity.
Qed.

Lemma map_threshold_tail (v : Z) (m : nat) : forall start : nat,
  (2 <= start)%nat ->
  map (fun i => if (1 + Z.of_nat i >=? Face.INTENT_FRAMES)%Z then v else 0%Z)
      (seq start m) = repeat v m.
Proof.
  induction m as [|m IH]; intros start Hs; [reflexivity|].
  cbn [seq map repeat]. rewrite IH by lia.
  unfold Face.INTENT_FRAMES.
  destruct (1 + Z.of_nat start >=? 3)%Z eqn:E; [reflexivity|].
  rewrite Z.geb_leb in E. apply Z.leb_gt in E. lia.
Qed.

(** A run of at least three equal values: zero twice, then the value. *)
Lemma axis_burst_long (run last : Z) (pre : list Z) (v : Z) (n : nat) :
  v <> 0%Z -> (3 <= n)%nat -> List.last pre last <> v ->
  snd (axis_run run last (pre ++ repeat v n)) =
  snd (axis_run run last pre) ++ 0%Z :: 0%Z :: repeat v (n - 2).
Proof.
  intros Hv Hn Hl. rewrite axis_run_app.
  pose proof (axis_run_last pre run last) as Hlast.
  destruct (axis_run run last pre) as [[r1 l1] ms]. simpl in Hlast. subst l1.
  destruct n as [|[|m]]; try lia.
  change (repeat v (S (S m))) with (v :: repeat v (S m)).
  cbn [axis_run]. rewrite (axis_step_fresh r1 _ _ Hv Hl).
  rewrite (axis_run_repeat v (S m) 1 Hv).
  cbn [snd seq map]. replace (S (S m) - 2)%nat with m by lia.
  rewrite map_threshold_tail by lia. reflexivity.
Qed.

(** C2.  Starting from the reset state and after any earlier inputs that
    do not end in [v], on either axis: (1) a nonzero value [v] fed for
    exactly two frames and then a different value gives the move 0 on all
    three frames; (2) [v] fed for [n >= 3] consecutive frames gives 0 on the
    first two and [v] from the third frame on; (3) in any state a raw 0
    sets that axis's run counter to 0 and gives the move 0 on that frame. *)
Theorem C2_intent_filter_runs :
  (forall c pre burst v w,
      intent_reset c -> v <> 0%Z -> w <> v ->
      List.last (map fst pre) 0%Z <> v -> map fst burst = [v; v; w] ->
      moves_x c (pre ++ burst) = moves_x c pre ++ [0; 0; 0]%Z) /\
  (forall c pre burst v w,
      intent_reset c -> v <> 0%Z -> w <> v ->
      List.last (map snd pre) 0%Z <> v -> map snd burst = [v; v; w] ->
      moves_y c (pre ++ burst) = moves_y c pre ++ [0; 0; 0]%Z) /\
  (forall c pre burst v n,
      intent_reset c -> v <> 0%Z -> (3 <= n)%nat ->
      List.last (map fst pre) 0%Z <> v -> map fst burst = repeat v n ->
      moves_x c (pre ++ burst) =
      moves_x c pre ++ 0%Z :: 0%Z :: repeat v (n - 2)) /\
  (forall c pre burst v n,
      intent_reset c -> v <> 0%Z -> (3 <= n)%nat ->
      List.last (map snd pre) 0%Z <> v -> map snd burst = repeat v n ->
      moves_y c (pre ++ burst) =
      moves_y c pre ++ 0%Z :: 0%Z :: repeat v (n - 2)) /\
  (forall c raw_my,
      _mx_run (fst (_apply_intent_filter c 0 raw_my)) = 0%Z /\
      fst (snd (_apply_intent_filter c 0 raw_my)) = 0%Z) /\
  (forall c raw_mx,
      _my_run (fst (_apply_intent_filter c raw_mx 0)) = 0%Z /\
      snd (snd (_apply_intent_filter c raw_mx 0)) = 0%Z).
Proof.
  repeat apply conj.
  - intros c pre burst v w (_ & Hl0 & _) Hv Hw Hl Hb.
    rewrite !moves_x_axis, map_app, Hb, Hl0.
    apply axis_burst_short; assumption.
  - intros c pre burst v w (_ & _ & _ & Hl0) Hv Hw Hl Hb.
    rewrite !moves_y_axis, map_app, Hb, Hl0.
    apply axis_burst_short; assumption.
  - intros c pre burst v n (_ & Hl0 & _) Hv Hn Hl Hb.
    rewrite !moves_x_axis, map_app, Hb, Hl0.
    apply axis_burst_long; assumption.
  - intros c pre burst v n (_ & _ & _ & Hl0) Hv Hn Hl Hb.
    rewrite !moves_y_axis, map_app, Hb, Hl0.
    apply axis_burst_long; assumption.
  - intros c raw_my. rewrite apply_intent_axes, axis_step_zero.
    destruct (axis_step (_my_run c) (_my_last c) raw_my) as [[? ?] ?].
    split; reflexivity.
  - intros c raw_mx. rewrite apply_intent_axes, axis_step_zero.
    destruct (axis_step (_mx_run c) (_mx_last c) raw_mx) as [[? ?] ?].
    split; reflexivity.
Qed.

End IntentFilter.

(** ** Smoothing windows (C7) *)

Section Windows.

Import Face.






End Windows.

(** ** Frame processing: [read_actions] case by case *)

Section ReadActions.

Import Face.
Open Scope Q_scope.

Lemma read_actions_no_pose (c : FaceController) (lm : Landmarks) :
  head_pose_pnp lm = None ->
  read_actions c (FaceSeen lm) =
  (with_ears c lm,
   Some {| move_x := 0; move_y := 0; yaw := 0; pitch := 0; roll := 0;
           left_eye_closed :=
             eye_closed (baseline_earL c) (earL_hist (with_ears c lm));
           right_eye_closed :=
             eye_closed (baseline_earR c) (earR_hist (with_ears c lm));
           face_found := true |}).
Proof.
  intros H. unfold read_actions. rewrite H. reflexivity.
Qed.

Lemma apply_intent_frame (c : FaceController) (rx ry : Z) :
  exists xr yr xl yl,
    fst (_apply_intent_filter c rx ry) = set_intent c xr yr xl yl.
Proof.
  rewrite apply_intent_axes.
  destruct (axis_step (_mx_run c) (_mx_last c) rx) as [[xr xl] mx].
  destruct (axis_step (_my_run c) (_my_last c) ry) as [[yr yl] my].
  exists xr, yr, xl, yl. reflexivity.
Qed.

Lemma read_actions_pose (c : FaceController) (lm : Landmarks) (p : Q * Q * Q) :
  head_pose_pnp lm = Some p ->
  let c1 := with_pose c p in
  let pitch_s := Py.mean (pitch_hist c1) - baseline_pitch c in
  let yaw_s := Py.mean (yaw_hist c1) - baseline_yaw c in
  let roll_s := Py.mean (roll_hist c1) - baseline_roll c in
  let r := _apply_intent_filter c1 (raw_move_x yaw_s) (raw_move_y pitch_s) in
  read_actions c (FaceSeen lm) =
  (with_ears (fst r) lm,
   Some {| move_x := fst (snd r); move_y := snd (snd r);
           yaw := yaw_s; pitch := pitch_s; roll := roll_s;
           left_eye_closed :=
             eye_closed (baseline_earL c) (earL_hist (with_ears (fst r) lm));
           right_eye_closed :=
             eye_closed (baseline_earR c) (earR_hist (with_ears (fst r) lm));
           face_found := true |}).
Proof.
  intros H. destruct p as [[pi ya] ro]. cbv zeta.
  unfold read_actions. rewrite H. unfold with_pose.
  set (c1 := set_pose_hists c _ _ _).
  change (baseline_pitch c1) with (baseline_pitch c).
  change (baseline_yaw c1) with (baseline_yaw c).
  change (baseline_roll c1) with (baseline_roll c).
  set (rx := raw_move_x _). set (ry := raw_move_y _).
  destruct (apply_intent_frame c1 rx ry) as (xr & yr & xl & yl & Hc).
  destruct (_apply_intent_filter c1 rx ry) as [c2 [mx my]].
  simpl in Hc. subst c2. reflexivity.
Qed.

End ReadActions.

(** ** Calibration (C4) *)

Section Calibration.

Import Face.


End Calibration.

(** ** Frames without a face, frames without a pose (C5, C6) *)

Section Frames.

Import Face.
Open Scope Q_scope.

(** C5.  On a frame where the detector reports no face, [read_actions]
    returns the neutral record and the controller is unchanged, with all its
    windows, baselines and intent-filter fields; the same holds over any
    number of such frames in a row. *)
Theorem C5_no_face_is_neutral_and_pure (c : FaceController) :
  read_actions c NoFace =
    (c, Some {| move_x := 0; move_y := 0; yaw := 0; pitch := 0; roll := 0;
                left_eye_closed := false; right_eye_closed := false;
                face_found := false |}) /\
  forall n : nat,
    read_many c (repeat NoFace n) =
      (c, repeat (Some {| move_x := 0; move_y := 0;
                          yaw := 0; pitch := 0; roll := 0;
                          left_eye_closed := false; right_eye_closed := false;
                          face_found := false |}) n) /\
    earL_hist (fst (read_many c (repeat NoFace n))) = earL_hist c /\
    earR_hist (fst (read_many c (repeat NoFace n))) = earR_hist c /\
    length (earL_hist (fst (read_many c (repeat NoFace n)))) = length (earL_hist c) /\
    length (earR_hist (fst (read_many c (repeat NoFace n)))) = length (earR_hist c).
Proof.
  split; [reflexivity|].
  assert (H : forall n, read_many c (repeat NoFace n) = (c, repeat (Some neutral) n)).
  { induction n as [|n IH]; [reflexivity|].
    cbn [repeat read_many read_actions]. rewrite IH. reflexivity. }
  intros n. rewrite H. repeat split.
Qed.




End Frames.

(** ** Window contents over a whole session (C7) *)

Section Session.

Import Face.
Open Scope Q_scope.





End Session.

(** ** Hold-gesture machines: the start/armed pair (C8) *)

Section HoldMachine.

Import Input.
Open Scope Q_scope.

Lemma handle_right_only_hold_step (s : InputState) (t : Q) (r l : bool) (th : Q) :
  handle_right_only_hold s t r l th =
  let '(start, armed, b) :=
    hold_step th (right_only_hold_start s) (right_only_hold_armed s) t
              (r && negb l) in
  (set_right_only s start armed, b).
Proof.
  destruct s as [lf ma nr bs ba rs ra].
  unfold handle_right_only_hold, hold_step; cbn.
  destruct (r && negb l); [|reflexivity].
  destruct rs as [t0|]; cbn.
  - destruct (Py.geb (t - t0) th && ra); reflexivity.
  - destruct (Py.geb (t - t) th); reflexivity.
Qed.

Lemma handle_both_hold_step (s : InputState) (t : Q) (r l : bool) (th : Q)
    (go : bool) :
  handle_both_hold s t r l th go =
  let '(start, armed, b) :=
    hold_step th (both_hold_start s) (both_hold_armed s) t
              (negb go && (l && r)) in
  (set_both s start armed, b).
Proof.
  destruct s as [lf ma nr bs ba rs ra].
  unfold handle_both_hold, hold_step; cbn.
  destruct go; [reflexivity|]. cbn.
  destruct (l && r); [|reflexivity].
  destruct bs as [t0|]; cbn.
  - destruct (Py.geb (t - t0) th && ba); reflexivity.
  - destruct (Py.geb (t - t) th); reflexivity.
Qed.

Lemma run_right_only_hold_run (th : Q) (fs : list EyeFrame) : forall s,
  run_right_only th s fs =
  let '(start, armed, bs) :=
    hold_run th (right_only_hold_start s) (right_only_hold_armed s)
             (map reset_view fs) in
  (set_right_only s start armed, bs).
Proof.
  induction fs as [|f fs IH]; intros s.
  - destruct s; reflexivity.
  - cbn [run_right_only map hold_run reset_view].
    rewrite handle_right_only_hold_step. fold (right_only f).
    destruct (hold_step th (right_only_hold_start s) (right_only_hold_armed s)
                (now f) (right_only f)) as [[st1 ar1] b].
    rewrite IH. cbn [right_only_hold_start right_only_hold_armed set_right_only].
    destruct (hold_run th st1 ar1 (map reset_view fs)) as [[st2 ar2] bs].
    reflexivity.
Qed.

Lemma run_both_hold_run (th : Q) (fs : list EyeFrame) : forall s,
  run_both th s fs =
  let '(start, armed, bs) :=
    hold_run th (both_hold_start s) (both_hold_armed s) (map place_view fs) in
  (set_both s start armed, bs).
Proof.
  induction fs as [|f fs IH]; intros s.
  - destruct s; reflexivity.
  - cbn [run_both map hold_run place_view].
    rewrite handle_both_hold_step. fold (both f).
    destruct (hold_step th (both_hold_start s) (both_hold_armed s)
                (now f) (negb (game_over f) && both f)) as [[st1 ar1] b].
    rewrite IH. cbn [both_hold_start both_hold_armed set_both].
    destruct (hold_run th st1 ar1 (map place_view fs)) as [[st2 ar2] bs].
    reflexivity.
Qed.

Lemma hold_run_app (th : Q) (xs ys : list (Q * bool)) : forall st ar,
  hold_run th st ar (xs ++ ys) =
  let '(st1, ar1, bs1) := hold_run th st ar xs in
  let '(st2, ar2, bs2) := hold_run th st1 ar1 ys in
  (st2, ar2, bs1 ++ bs2).
Proof.
  induction xs as [|[t c] xs IH]; intros st ar; cbn [app hold_run].
  - destruct (hold_run th st ar ys) as [[? ?] ?]. reflexivity.
  - destruct (hold_step th st ar t c) as [[st1 ar1] b].
    rewrite IH.
    destruct (hold_run th st1 ar1 xs) as [[st2 ar2] bs1].
    destruct (hold_run th st2 ar2 ys) as [[? ?] ?]. reflexivity.
Qed.





Lemma nth_all_false (A : Type) (l : list A) (i : nat) :
  nth i (map (fun _ => false) l) false = false.
Proof.
  revert i. induction l as [|x l IH]; intros [|i]; cbn; auto.
Qed.

Lemma count_all_false (A : Type) (l : list A) :
  count_occ bool_dec (map (fun _ : A => false) l) true = 0%nat.
Proof. induction l as [|x l IH]; cbn; auto. Qed.

(** *** The specification, for any handler that runs [hold_step] *)

Section Generic.

Variable th : Q.
Variable view : EyeFrame -> Q * bool.
Variable admissible : EyeFrame -> Prop.
Variable holding : EyeFrame -> bool.
Hypothesis view_ok : forall f, admissible f -> view f = (now f, holding f).






End Generic.

(** *** The armed flag and the current hold *)

Lemma combine_snoc (A B : Type) (l : list A) (m : list B) (x : A) (y : B) :
  length l = length m ->
  combine (l ++ [x]) (m ++ [y]) = combine l m ++ [(x, y)].
Proof.
  revert m. induction l as [|a l IH]; intros [|b m] H; try discriminate.
  - reflexivity.
  - cbn. rewrite IH; [reflexivity | injection H as H; exact H].
Qed.

Lemma trailing_snoc (A : Type) (p : A -> bool) (l : list A) (x : A) :
  trailing p (l ++ [x]) = if p x then trailing p l ++ [x] else [].
Proof.
  unfold trailing. rewrite rev_app_distr. cbn [rev app take_while].
  destruct (p x); reflexivity.
Qed.

Lemma fired_snoc (F : Type) (cond : F -> bool) (fs : list F) (outs : list bool)
    (f : F) (o : bool) :
  length fs = length outs ->
  fired_in_current_hold cond (fs ++ [f]) (outs ++ [o]) =
  if cond f then fired_in_current_hold cond fs outs || o else false.
Proof.
  intros Hlen. unfold fired_in_current_hold.
  rewrite (combine_snoc _ _ _ _ _ _ Hlen), trailing_snoc. cbn [fst].
  destruct (cond f); [|reflexivity].
  rewrite existsb_app. cbn. rewrite orb_false_r. reflexivity.
Qed.

Section Armed.

Variable th : Q.
Variable view : EyeFrame -> Q * bool.

(** What holds of the pair (start, armed) after any run begun idle: with no
    hold in progress nothing has fired in the current hold and, once a frame
    was seen, the machine is armed; with a hold in progress the machine is
    armed exactly when that hold has not fired yet. *)
Lemma armed_invariant (fs : list EyeFrame) : forall ar0,
  let '(st, ar, outs) := hold_run th None ar0 (map view fs) in
  let fired := fired_in_current_hold (fun f => snd (view f)) fs outs in
  length fs = length outs /\
  match st with
  | None => fired = false /\ (fs <> [] -> ar = true)
  | Some _ => ar = negb fired
  end.
Proof.
  induction fs as [|f fs IH] using rev_ind; intros ar0.
  - cbn. split; [reflexivity|]. split; [reflexivity | intros H; contradiction].
  - rewrite map_app, hold_run_app. specialize (IH ar0).
    destruct (hold_run th None ar0 (map view fs)) as [[st ar] outs].
    cbn zeta in IH. destruct IH as [Hlen IH].
    cbn [map hold_run]. destruct (view f) as [t c] eqn:Ev.
    destruct (hold_step th st ar t c) as [[st1 ar1] b] eqn:Es.
    cbn zeta. rewrite (fired_snoc _ _ _ _ _ _ Hlen), Ev. cbn [snd].
    split; [rewrite !length_app, Hlen; reflexivity|].
    unfold hold_step in Es. destruct c.
    + destruct st as [t0|].
      * destruct (Py.geb (t - t0) th && ar) eqn:Eg;
          injection Es as <- <- <-.
        -- rewrite orb_true_r. reflexivity.
        -- rewrite orb_false_r. exact IH.
      * destruct IH as [Hf _]. rewrite Hf.
        destruct (Py.geb (t - t) th && true) eqn:Eg;
          injection Es as <- <- <-; reflexivity.
    + injection Es as <- <- <-. split; [reflexivity | intros _; reflexivity].
Qed.

Lemma armed_after_run (fs : list EyeFrame) (ar0 : bool) :
  fs <> [] ->
  let '(st, ar, outs) := hold_run th None ar0 (map view fs) in
  ar = negb (fired_in_current_hold (fun f => snd (view f)) fs outs).
Proof.
  intros Hne. pose proof (armed_invariant fs ar0) as H.
  destruct (hold_run th None ar0 (map view fs)) as [[st ar] outs].
  cbn zeta in H. destruct H as [_ H]. destruct st as [t0|].
  - exact H.
  - destruct H as [Hf Ha]. rewrite Hf, (Ha Hne). reflexivity.
Qed.

End Armed.

(** C8, as stated, fails for the place machine: with [game_over] true and
    both eyes closed the condition "both eyes closed" holds on the frame, and
    the stored start timestamp is [None] after the update. *)
Lemma C8_game_over_gate_counterexample :
  let f := {| now := 0; right_closed := true; left_closed := true;
              game_over := true |} in
  both f = true /\
  both_hold_start
    (fst (handle_both_hold init (now f) (right_closed f) (left_closed f)
            cfg.PLACE_HOLD_SECONDS (game_over f))) = None /\
  ~ (both_hold_start
       (fst (handle_both_hold init (now f) (right_closed f) (left_closed f)
               cfg.PLACE_HOLD_SECONDS (game_over f))) = None
     <-> both f = false).
Proof.
  cbn. split; [reflexivity|]. split; [reflexivity|].
  intros [H _]. specialize (H eq_refl). discriminate.
Qed.

(** C8, amended.  After every update the stored start timestamp is [None]
    exactly when the machine's condition was false on that frame or, for the
    place machine, [game_over] was true (which counts as a release); and
    after every update of a run begun with no hold in progress the armed flag
    is false exactly when some frame of the current continuous hold has
    returned true. *)
Theorem C8_start_and_armed_invariant :
  (forall s t r l th,
      right_only_hold_start (fst (handle_right_only_hold s t r l th)) = None
      <-> r && negb l = false) /\
  (forall s t r l th go,
      both_hold_start (fst (handle_both_hold s t r l th go)) = None
      <-> (go = true \/ l && r = false)) /\
  (forall th s fs,
      fs <> [] -> right_only_hold_start s = None ->
      right_only_hold_armed (fst (run_right_only th s fs)) =
      negb (fired_in_current_hold right_only fs
              (snd (run_right_only th s fs)))) /\
  (forall th s fs,
      fs <> [] -> both_hold_start s = None ->
      both_hold_armed (fst (run_both th s fs)) =
      negb (fired_in_current_hold
              (fun f => negb (game_over f) && both f) fs
              (snd (run_both th s fs)))).
Proof.
  repeat apply conj.
  - intros s t r l th. rewrite handle_right_only_hold_step.
    unfold hold_step. destruct (r && negb l).
    + destruct (right_only_hold_start s) as [t0|];
        [destruct (Py.geb (t - t0) th && right_only_hold_armed s)
        |destruct (Py.geb (t - t) th && true)];
        cbn; split; discriminate.
    + cbn. split; reflexivity.
  - intros s t r l th go. rewrite handle_both_hold_step.
    unfold hold_step. destruct go; cbn [negb andb].
    + cbn. split; [intros _; left; reflexivity | reflexivity].
    + destruct (l && r).
      * destruct (both_hold_start s) as [t0|];
          [destruct (Py.geb (t - t0) th && both_hold_armed s)
          |destruct (Py.geb (t - t) th && true)];
          cbn; (split; [discriminate | intros [H|H]; discriminate]).
      * cbn. split; [intros _; right; reflexivity | reflexivity].
  - intros th s fs Hne Hidle. rewrite run_right_only_hold_run, Hidle.
    pose proof (armed_after_run th reset_view fs (right_only_hold_armed s) Hne) as H.
    destruct (hold_run th None (right_only_hold_armed s) (map reset_view fs))
      as [[st ar] outs].
    exact H.
  - intros th s fs Hne Hidle. rewrite run_both_hold_run, Hidle.
    pose proof (armed_after_run th place_view fs (both_hold_armed s) Hne) as H.
    destruct (hold_run th None (both_hold_armed s) (map place_view fs))
      as [[st ar] outs].
    exact H.
Qed.

End HoldMachine.

(** ** Hold-gesture machines on doubles (C1) *)

Section HoldMachine64.

Import PrimFloat.
Import Input64.

Lemma handle_right_only_hold_latch (s : InputState) (t : PrimFloat.float)
    (r l : bool) (th : PrimFloat.float) :
  handle_right_only_hold s t r l th =
  let '(start, armed, b) :=
    latch_step (lasted th) (right_only_hold_start s) (right_only_hold_armed s)
               t (r && negb l) in
  (set_right_only s start armed, b).
Proof.
  destruct s as [lf ma nr bs ba rs ra].
  unfold handle_right_only_hold, latch_step, lasted; cbn.
  destruct (r && negb l); [|reflexivity].
  destruct rs as [t0|]; cbn.
  - destruct (PrimFloat.leb _ _ && ra); reflexivity.
  - destruct (PrimFloat.leb _ _); reflexivity.
Qed.

Lemma handle_both_hold_latch (s : InputState) (t : PrimFloat.float)
    (r l : bool) (th : PrimFloat.float) (go : bool) :
  handle_both_hold s t r l th go =
  let '(start, armed, b) :=
    latch_step (lasted th) (both_hold_start s) (both_hold_armed s) t
               (negb go && (l && r)) in
  (set_both s start armed, b).
Proof.
  destruct s as [lf ma nr bs ba rs ra].
  unfold handle_both_hold, latch_step, lasted; cbn.
  destruct go; [reflexivity|]. cbn.
  destruct (l && r); [|reflexivity].
  destruct bs as [t0|]; cbn.
  - destruct (PrimFloat.leb _ _ && ba); reflexivity.
  - destruct (PrimFloat.leb _ _); reflexivity.
Qed.

Lemma run_right_only_latch_run (th : PrimFloat.float) (fs : list EyeFrame) :
  forall s,
  run_right_only th s fs =
  let '(start, armed, bs) :=
    latch_run (lasted th) (right_only_hold_start s) (right_only_hold_armed s)
              (map reset_view64 fs) in
  (set_right_only s start armed, bs).
Proof.
  induction fs as [|f fs IH]; intros s.
  - destruct s; reflexivity.
  - cbn [run_right_only map latch_run reset_view64].
    rewrite handle_right_only_hold_latch. fold (right_only f).
    destruct (latch_step (lasted th) (right_only_hold_start s)
                (right_only_hold_armed s) (now f) (right_only f))
      as [[st1 ar1] b].
    rewrite IH. cbn [right_only_hold_start right_only_hold_armed set_right_only].
    destruct (latch_run (lasted th) st1 ar1 (map reset_view64 fs))
      as [[st2 ar2] bs].
    reflexivity.
Qed.

Lemma run_both_latch_run (th : PrimFloat.float) (fs : list EyeFrame) :
  forall s,
  run_both th s fs =
  let '(start, armed, bs) :=
    latch_run (lasted th) (both_hold_start s) (both_hold_armed s)
              (map place_view64 fs) in
  (set_both s start armed, bs).
Proof.
  induction fs as [|f fs IH]; intros s.
  - destruct s; reflexivity.
  - cbn [run_both map latch_run place_view64].
    rewrite handle_both_hold_latch. fold (both f).
    destruct (latch_step (lasted th) (both_hold_start s) (both_hold_armed s)
                (now f) (negb (game_over f) && both f)) as [[st1 ar1] b].
    rewrite IH. cbn [both_hold_start both_hold_armed set_both].
    destruct (latch_run (lasted th) st1 ar1 (map place_view64 fs))
      as [[st2 ar2] bs].
    reflexivity.
Qed.

(** *** The machine, for any test [reach] *)

Section AnyTest.

Context {T : Type}.
Variable reach : T -> T -> bool.

Lemma latch_run_app (xs ys : list (T * bool)) : forall st ar,
  latch_run reach st ar (xs ++ ys) =
  let '(st1, ar1, bs1) := latch_run reach st ar xs in
  let '(st2, ar2, bs2) := latch_run reach st1 ar1 ys in
  (st2, ar2, bs1 ++ bs2).
Proof.
  induction xs as [|[t c] xs IH]; intros st ar; cbn [app latch_run].
  - destruct (latch_run reach st ar ys) as [[? ?] ?]. reflexivity.
  - destruct (latch_step reach st ar t c) as [[st1 ar1] b].
    rewrite IH.
    destruct (latch_run reach st1 ar1 xs) as [[st2 ar2] bs1].
    destruct (latch_run reach st2 ar2 ys) as [[? ?] ?]. reflexivity.
Qed.

(** Once fired, a hold that goes on returns false on every frame. *)
Lemma latch_run_spent (t0 : T) (h : list (T * bool)) :
  Forall (fun x => snd x = true) h ->
  latch_run reach (Some t0) false h = (Some t0, false, map (fun _ => false) h).
Proof.
  induction 1 as [|[t c] h Hc _ IH]; [reflexivity|].
  cbn in Hc. subst c. cbn [latch_run latch_step map].
  rewrite andb_false_r, IH. reflexivity.
Qed.

(** While armed, a hold that goes on fires on the first frame that passes
    the test. *)
Lemma latch_run_armed (t0 : T) (h : list (T * bool)) :
  Forall (fun x => snd x = true) h ->
  exists ar,
    latch_run reach (Some t0) true h =
    (Some t0, ar, first_hit reach t0 (map fst h)).
Proof.
  induction 1 as [|[t c] h Hc Hh IH].
  - exists true. reflexivity.
  - cbn in Hc. subst c. cbn [latch_run latch_step map first_hit fst].
    rewrite andb_true_r. destruct (reach t t0).
    + rewrite (latch_run_spent t0 h Hh). exists false.
      rewrite map_map. reflexivity.
    + destruct IH as [ar IH]. rewrite IH. exists ar. reflexivity.
Qed.

(** The first frame of a hold records its time and arms the machine. *)
Lemma latch_run_begin (t0 : T) (ar : bool) (h : list (T * bool)) :
  latch_run reach None ar ((t0, true) :: h) =
  latch_run reach (Some t0) true ((t0, true) :: h).
Proof. reflexivity. Qed.

(** A release returns the machine to idle and returns false. *)
Lemma latch_run_release (rel : list (T * bool)) : forall st ar,
  rel <> [] ->
  Forall (fun x => snd x = false) rel ->
  latch_run reach st ar rel = (None, true, map (fun _ => false) rel).
Proof.
  induction rel as [|[t c] rel IH]; intros st ar Hne Hrel; [contradiction|].
  inversion Hrel as [|? ? Hc Hrel']; subst. cbn in Hc. subst c.
  cbn [latch_run latch_step map].
  destruct rel as [|x rel]; [reflexivity|].
  rewrite IH; [reflexivity | discriminate | assumption].
Qed.

Lemma first_hit_nth (t0 d : T) (ts : list T) : forall i,
  nth i (first_hit reach t0 ts) false = true <->
  (i < length ts)%nat /\ reach (nth i ts d) t0 = true /\
  forall k, (k < i)%nat -> reach (nth k ts d) t0 = false.
Proof.
  induction ts as [|t ts IH]; intros i.
  - cbn. split; [destruct i; discriminate | intros [H _]; lia].
  - cbn [first_hit]. destruct (reach t t0) eqn:E.
    + destruct i as [|i]; cbn [nth length].
      * split; [intros _|reflexivity].
        split; [lia|]. split; [exact E | intros k Hk; lia].
      * rewrite nth_all_false. split; [discriminate|].
        intros (_ & _ & Hk). specialize (Hk 0%nat ltac:(lia)). cbn in Hk.
        congruence.
    + destruct i as [|i]; cbn [nth length].
      * split; [discriminate | intros (_ & H & _); congruence].
      * rewrite IH. split.
        -- intros (Hi & Hr & Hk). split; [lia|]. split; [exact Hr|].
           intros [|k] Hlt; cbn [nth]; [exact E | apply Hk; lia].
        -- intros (Hi & Hr & Hk). split; [lia|]. split; [exact Hr|].
           intros k Hlt. apply (Hk (S k)). lia.
Qed.

Lemma first_hit_once (t0 : T) (ts : list T) :
  (exists t, In t ts /\ reach t t0 = true) ->
  count_occ bool_dec (first_hit reach t0 ts) true = 1%nat.
Proof.
  induction ts as [|t ts IH]; intros (x & Hin & Hx); [contradiction|].
  cbn [first_hit]. destruct (reach t t0) eqn:E.
  - cbn. rewrite count_all_false. reflexivity.
  - cbn. apply IH.
    destruct Hin as [->|Hin]; [congruence|]. exists x. split; assumption.
Qed.

Lemma first_hit_never (t0 : T) (ts : list T) :
  (forall t, In t ts -> reach t t0 = false) ->
  first_hit reach t0 ts = map (fun _ => false) ts.
Proof.
  induction ts as [|t ts IH]; intros H; [reflexivity|].
  cbn [first_hit map].
  rewrite (H t (or_introl eq_refl)).
  rewrite IH; [reflexivity|]. intros x Hx. apply H. right. exact Hx.
Qed.

End AnyTest.

(** *** The specification, for any handler that runs [latch_step] *)

Section Generic64.

Variable th : PrimFloat.float.
Variable view : EyeFrame -> PrimFloat.float * bool.
Variable admissible : EyeFrame -> Prop.
Variable holding : EyeFrame -> bool.
Hypothesis view_ok : forall f, admissible f -> view f = (now f, holding f).

Lemma view64_times (l : list EyeFrame) :
  Forall admissible l -> map fst (map view l) = map now l.
Proof.
  induction 1 as [|f l Hf _ IH]; [reflexivity|].
  cbn [map]. rewrite IH, (view_ok f Hf). reflexivity.
Qed.

Lemma view64_held (l : list EyeFrame) :
  Forall admissible l -> Forall (fun f => holding f = true) l ->
  Forall (fun x => snd x = true) (map view l).
Proof.
  induction 1 as [|f l Hf _ IH]; intros Hh; [constructor|].
  inversion Hh; subst. cbn [map]. constructor; [|apply IH; assumption].
  rewrite (view_ok f Hf). assumption.
Qed.

Lemma view64_released (l : list EyeFrame) :
  Forall admissible l -> Forall (fun f => holding f = false) l ->
  Forall (fun x => snd x = false) (map view l).
Proof.
  induction 1 as [|f l Hf _ IH]; intros Hh; [constructor|].
  inversion Hh; subst. cbn [map]. constructor; [|apply IH; assumption].
  rewrite (view_ok f Hf). assumption.
Qed.

(** One hold begun in an idle state. *)
Lemma latch_from_idle (ar : bool) (h : list EyeFrame) :
  Forall admissible h -> Forall (fun f => holding f = true) h ->
  exists st' ar',
    latch_run (lasted th) None ar (map view h) = (st', ar', expected_hold64 th h).
Proof.
  intros Ha Hh. destruct h as [|f0 h]; [exists None, ar; reflexivity|].
  pose proof (view64_held _ Ha Hh) as Hv.
  pose proof (view64_times _ Ha) as Ht.
  inversion Ha as [|? ? Hf0 _]; subst.
  inversion Hh as [|? ? Hc0 _]; subst.
  cbn [map] in *. rewrite (view_ok f0 Hf0), Hc0 in *.
  rewrite latch_run_begin.
  destruct (latch_run_armed (lasted th) (now f0) _ Hv) as [ar' Hr].
  rewrite Hr. exists (Some (now f0)), ar'.
  unfold expected_hold64. cbn [map fst] in *. rewrite Ht. reflexivity.
Qed.

(** A whole sequence of holds and releases, then a last hold. *)
Lemma latch_run_segments (segs : list Segment64) (last : list EyeFrame) :
  forall ar,
  Forall admissible (frames_of64 segs ++ last) ->
  well_segmented64 holding segs ->
  Forall (fun f => holding f = true) last ->
  snd (latch_run (lasted th) None ar (map view (frames_of64 segs ++ last))) =
  expected_of64 th segs ++ expected_hold64 th last.
Proof.
  induction segs as [|[h r] segs IH]; intros ar Ha Hseg Hlast.
  - cbn [frames_of64 flat_map app expected_of64] in *.
    destruct (latch_from_idle ar last Ha Hlast) as (st' & ar' & Hr).
    rewrite Hr. reflexivity.
  - inversion Hseg as [|? ? (Hh & Hr & Hne) Hseg']; subst. cbn [fst snd] in *.
    unfold frames_of64, expected_of64 in *. cbn [flat_map fst snd] in *.
    rewrite <- !app_assoc in *.
    apply Forall_app in Ha. destruct Ha as [Hah Ha].
    apply Forall_app in Ha. destruct Ha as [Har Ha].
    rewrite map_app, latch_run_app.
    destruct (latch_from_idle ar h Hah Hh) as (st1 & ar1 & E1). rewrite E1.
    rewrite map_app, latch_run_app.
    rewrite (latch_run_release (lasted th) (map view r) st1 ar1).
    + specialize (IH true Ha Hseg' Hlast).
      destruct (latch_run (lasted th) None true _) as [[st3 ar3] bs3].
      cbn [snd] in *. rewrite IH, map_map. reflexivity.
    + destruct r; [contradiction | discriminate].
    + apply view64_released; assumption.
Qed.

End Generic64.

(** Any runner whose flags are those of [latch_run] meets the specification. *)
Lemma fires_once_from_latch_run
    (run : InputState -> list EyeFrame -> InputState * list bool)
    (start : InputState -> option PrimFloat.float) (armed : InputState -> bool)
    (view : EyeFrame -> PrimFloat.float * bool) (admissible : EyeFrame -> Prop)
    (holding : EyeFrame -> bool) (th : PrimFloat.float) :
  (forall s fs,
      snd (run s fs) =
      snd (latch_run (lasted th) (start s) (armed s) (map view fs))) ->
  (forall f, admissible f -> view f = (now f, holding f)) ->
  fires_once_per_hold64 run (fun s => start s = None) admissible holding th.
Proof.
  intros Hrun Hview. split.
  - intros s f0 h Hidle Ha Hh. cbv zeta. rewrite Hrun, Hidle.
    destruct (latch_from_idle th view admissible holding Hview (armed s)
                (f0 :: h) Ha Hh) as (st' & ar' & E).
    rewrite E. cbn [snd]. unfold expected_hold64.
    split; [|split].
    + intros i.
      rewrite (first_hit_nth (lasted th) (now f0) (now f0)).
      rewrite length_map. reflexivity.
    + intros (f & Hin & Hf). apply first_hit_once.
      exists (now f). split; [apply in_map; exact Hin | exact Hf].
    + intros Hbelow. rewrite first_hit_never.
      * rewrite map_map. reflexivity.
      * intros t Ht. apply in_map_iff in Ht. destruct Ht as (f & <- & Hin).
        apply Hbelow. exact Hin.
  - intros s segs last Hidle Ha Hseg Hlast. rewrite Hrun, Hidle.
    apply (latch_run_segments th view admissible holding Hview); assumption.
Qed.

(** C1.  For the reset machine with its threshold of 3.0 s and for the
    place machine with its threshold of 0.35 s and [game_over] false, over
    every sequence of frames (with timestamps in any order, so in particular
    nondecreasing ones): during one continuous hold the handler returns true
    on exactly one frame, the first whose elapsed time since the hold began
    is at least the threshold, and false on all others; a hold that stays
    below the threshold never returns true; and every further hold after a
    release is treated the same way.  Times are doubles: the elapsed time is
    the rounded difference [now - start] and the thresholds are the doubles
    nearest 0.35 and 3.0, compared as the code compares them. *)
Theorem C1_hold_fires_once_per_hold :
  fires_once_per_hold64
    (run_right_only cfg64.RESET_HOLD_SECONDS)
    (fun s => right_only_hold_start s = None)
    (fun _ => True)
    right_only 3.0%float /\
  fires_once_per_hold64
    (run_both cfg64.PLACE_HOLD_SECONDS)
    (fun s => both_hold_start s = None)
    (fun f => game_over f = false)
    both 0.35%float.
Proof.
  split.
  - apply fires_once_from_latch_run
      with (armed := right_only_hold_armed) (view := reset_view64).
    + intros s fs. rewrite run_right_only_latch_run.
      destruct (latch_run _ _ _ _) as [[? ?] ?]. reflexivity.
    + intros f _. reflexivity.
  - apply fires_once_from_latch_run
      with (armed := both_hold_armed) (view := place_view64).
    + intros s fs. rewrite run_both_latch_run.
      destruct (latch_run _ _ _ _) as [[? ?] ?]. reflexivity.
    + intros f Hgo. unfold place_view64. rewrite Hgo. reflexivity.
Qed.

(** C1 on the place machine at the edge of the threshold: a hold sampled at
    0.34, 0.69 and 0.7 s, where [0.69 - 0.34] rounds below [0.35] and the
    flag comes at 0.7 s; a release at 0.8 s; and a second hold at 1.0, 1.35
    and 1.4 s, where [1.35 - 1.0] rounds above [0.35] and the flag comes at
    1.35 s. *)
Lemma C1_hold_fires_once_per_hold_witness :
  let closed t := {| now := t; right_closed := true; left_closed := true;
                     game_over := false |} in
  let open t := {| now := t; right_closed := false; left_closed := false;
                   game_over := false |} in
  snd (run_both cfg64.PLACE_HOLD_SECONDS Input64.init
         [closed 0.34; closed 0.69; closed 0.7; open 0.8;
          closed 1.0; closed 1.35; closed 1.4]%float) =
  [false; false; true; false; false; true; false].
Proof.
  intros closed open.
  destruct C1_hold_fires_once_per_hold as [_ [_ H]].
  apply (H Input64.init
           [([closed 0.34; closed 0.69; closed 0.7], [open 0.8])]%float
           [closed 1.0; closed 1.35; closed 1.4]%float).
  - reflexivity.
  - repeat constructor.
  - repeat constructor. discriminate.
  - repeat constructor.
Defined.

End HoldMachine64.

(** ** The eye flags on doubles (C9) *)

Section Frames64.

Import PrimFloat.
Import Face64.

Lemma apply_intent_frame64 (c : FaceController) (rx ry : Z) :
  exists xr yr xl yl m,
    _apply_intent_filter c rx ry = (set_intent c xr yr xl yl, m).
Proof.
  unfold _apply_intent_filter.
  destruct (rx =? 0)%Z, (ry =? 0)%Z,
           (rx =? _mx_last c)%Z, (ry =? _my_last c)%Z;
    repeat eexists.
Qed.

(** C9.  On every frame with a face, whether the pose solve succeeds or
    not, the left flag is true exactly when the left baseline is set and the
    mean of the updated left window is strictly below the baseline times
    0.72; the same for the right eye; a flag whose baseline is unset is
    false.  The mean is whatever [np.mean] returns for the window, the
    product is the rounded product of the baseline and the double nearest
    0.72, and [<] is the comparison of doubles. *)
Theorem C9_eye_closed_iff_below_drop
    (np_mean : list PrimFloat.float -> PrimFloat.float)
    (c : FaceController)
    (pose : option (PrimFloat.float * PrimFloat.float * PrimFloat.float))
    (earL earR : PrimFloat.float) :
  exists c' a,
    read_actions np_mean c (FaceSeen pose earL earR) = (c', Some a) /\
    earL_hist c' = Py64.deque_append 5 (earL_hist c) earL /\
    earR_hist c' = Py64.deque_append 5 (earR_hist c) earR /\
    (left_eye_closed a = true <->
       exists b, baseline_earL c = Some b /\
                 PrimFloat.ltb (np_mean (earL_hist c'))
                               (PrimFloat.mul b 0.72%float) = true) /\
    (right_eye_closed a = true <->
       exists b, baseline_earR c = Some b /\
                 PrimFloat.ltb (np_mean (earR_hist c'))
                               (PrimFloat.mul b 0.72%float) = true) /\
    (baseline_earL c = None -> left_eye_closed a = false) /\
    (baseline_earR c = None -> right_eye_closed a = false).
Proof.
  assert (Hflag : forall (bo : option PrimFloat.float) (m : PrimFloat.float),
            let flag := match bo with
                        | Some b => Py64.ltb m (PrimFloat.mul b BLINK_DROP)
                        | None => false
                        end in
            (flag = true <->
               exists b, bo = Some b /\
                         PrimFloat.ltb m (PrimFloat.mul b 0.72%float) = true) /\
            (bo = None -> flag = false)).
  { intros [b|] m; cbn; split.
    - split.
      + intros Hlt. exists b. split; [reflexivity | exact Hlt].
      + intros (b' & Hb & Hlt). injection Hb as <-. exact Hlt.
    - discriminate.
    - split; [discriminate | intros (b & Hb & _); discriminate].
    - reflexivity. }
  destruct pose as [[[pi ya] ro]|]; cbn [read_actions].
  - set (cp := set_pose_hists c _ _ _).
    destruct (apply_intent_frame64 cp
                (raw_move_x (PrimFloat.sub (np_mean (yaw_hist cp)) (baseline_yaw cp)))
                (raw_move_y (PrimFloat.sub (np_mean (pitch_hist cp)) (baseline_pitch cp))))
      as (xr & yr & xl & yl & [mx my] & Hc).
    rewrite Hc. eexists. eexists. split; [reflexivity|].
    cbn [left_eye_closed right_eye_closed earL_hist earR_hist
         baseline_earL baseline_earR set_ear_hists set_intent set_pose_hists cp].
    split; [reflexivity|]. split; [reflexivity|].
    split; [apply Hflag|]. split; [apply Hflag|]. split; apply Hflag.
  - eexists. eexists. split; [reflexivity|].
    cbn [left_eye_closed right_eye_closed earL_hist earR_hist
         baseline_earL baseline_earR set_ear_hists].
    split; [reflexivity|]. split; [reflexivity|].
    split; [apply Hflag|]. split; [apply Hflag|]. split; apply Hflag.
Qed.

(** C9 on a session: one frame with both ratios at 0.5, a calibration, which
    sets both baselines to 0.5, then frames with both ratios at 0.25.  After
    the first of these the window mean is 0.375, not below 0.5 * 0.72; on
    the second it is 1.0 / 3 and the flag is true.  And at the edge of the
    drop: with the baseline 0.17 and a window of 0.1224 throughout, the
    product [0.17 * 0.72] rounds above 0.1224 and the flag is true; with the
    baseline 1.0 and a window of 0.72 throughout the flag is false. *)
Lemma C9_eye_closed_iff_below_drop_witness :
  let frame e := FaceSeen None e e in
  let c2 := calibrate Py64.mean_seq
              (fst (read_actions Py64.mean_seq init (frame 0.5%float))) in
  let c3 := fst (read_actions Py64.mean_seq c2 (frame 0.25%float)) in
  let steady b e :=
    set_baselines (set_ear_hists init [e; e; e; e; e] [e; e; e; e; e])
                  (Some b) (Some b) 0%float 0%float 0%float in
  (baseline_earL c3 = Some 0.5%float /\
   exists c' a,
     read_actions Py64.mean_seq c3 (frame 0.25%float) = (c', Some a) /\
     left_eye_closed a = true) /\
  (exists c' a,
     read_actions Py64.mean_seq (steady 0.17 0.1224)%float (frame 0.1224%float)
     = (c', Some a) /\ left_eye_closed a = true) /\
  (exists c' a,
     read_actions Py64.mean_seq (steady 1.0 0.72)%float (frame 0.72%float)
     = (c', Some a) /\ left_eye_closed a = false).
Proof.
  intros frame c2 c3 steady. split; [split; [reflexivity|] | split].
  - destruct (C9_eye_closed_iff_below_drop Py64.mean_seq c3 None
                0.25%float 0.25%float)
      as (c' & a & Hr & HL & _ & Hiff & _).
    exists c', a. split; [exact Hr|]. apply Hiff.
    exists 0.5%float. split; [reflexivity|]. rewrite HL. reflexivity.
  - destruct (C9_eye_closed_iff_below_drop Py64.mean_seq
                (steady 0.17 0.1224)%float None 0.1224%float 0.1224%float)
      as (c' & a & Hr & HL & _ & Hiff & _).
    exists c', a. split; [exact Hr|]. apply Hiff.
    exists 0.17%float. split; [reflexivity|]. rewrite HL. reflexivity.
  - destruct (C9_eye_closed_iff_below_drop Py64.mean_seq
                (steady 1.0 0.72)%float None 0.72%float 0.72%float)
      as (c' & a & Hr & HL & _ & Hiff & _).
    exists c', a. split; [exact Hr|].
    destruct (left_eye_closed a); [|reflexivity].
    destruct Hiff as [Hiff _]. destruct (Hiff eq_refl) as (b & Hb & Hlt).
    injection Hb as <-. rewrite HL in Hlt. vm_compute in Hlt. discriminate.
Defined.

End Frames64.

(** ** The movement latch (C10) *)

Section MoveLatch.

Import Input Main.
Open Scope Z_scope.

Lemma choose_axis_neutral (a : MoveFrame) :
  let '(mx, my) := choose_axis_no_diagonal (act_move_x a) (act_move_y a)
                     (act_yaw a) (act_pitch a) in
  (mx =? 0) && (my =? 0) = neutral_frame a.
Proof.
  unfold choose_axis_no_diagonal, neutral_frame.
  destruct (act_move_x a =? 0) eqn:Ex, (act_move_y a =? 0) eqn:Ey; cbn;
    try (rewrite ?Ex, ?Ey; reflexivity).
  destruct (Py.geb _ _); cbn; rewrite ?Ex, ?Ey; reflexivity.
Qed.

(** The movement block on a neutral frame: the counter goes up by one, the
    latch is set once the counter reaches 2, and no move is made. *)
Lemma move_block_neutral (s : InputState) (a : MoveFrame) :
  neutral_frame a = true ->
  move_block s a =
  (set_move s (if neutral_run s + 1 >=? 2 then true else move_armed s)
              (neutral_run s + 1),
   None).
Proof.
  intros Hn. unfold move_block.
  pose proof (choose_axis_neutral a) as Hc.
  destruct (choose_axis_no_diagonal _ _ _ _) as [mx my].
  rewrite Hn in Hc. apply andb_true_iff in Hc. destruct Hc as [Hx Hy].
  apply Z.eqb_eq in Hx, Hy. subst mx my.
  unfold update_neutral_and_arm, cfg.NEUTRAL_FRAMES_REQUIRED. cbn.
  destruct (neutral_run s + 1 >=? 2); cbn;
    destruct (move_armed s); destruct s; reflexivity.
Qed.

(** The movement block on a frame that is not neutral: the counter is set
    to 0; a move is made only if the latch was set, and then it is cleared. *)
Lemma move_block_active (s : InputState) (a : MoveFrame) :
  neutral_frame a = false ->
  exists m,
    move_block s a =
    (set_move s (match m with Some _ => false | None => move_armed s end) 0, m) /\
    (move_armed s = false -> m = None).
Proof.
  intros Hn. unfold move_block.
  pose proof (choose_axis_neutral a) as Hc.
  destruct (choose_axis_no_diagonal _ _ _ _) as [mx my].
  rewrite Hn in Hc. unfold update_neutral_and_arm. rewrite Hc. cbn.
  destruct (move_armed s) eqn:Ea.
  - destruct (mx =? -1);
      [exists (Some (-1, 0)); split; [reflexivity | discriminate]|].
    destruct (mx =? 1);
      [exists (Some (1, 0)); split; [reflexivity | discriminate]|].
    destruct (my =? 1);
      [exists (Some (0, 1)); split; [reflexivity | discriminate]|].
    destruct (my =? -1);
      [exists (Some (0, -1)); split; [reflexivity | discriminate]|].
    exists None. cbn. rewrite <- Ea. destruct s; split; reflexivity.
  - exists None. cbn. rewrite <- Ea. destruct s; split; reflexivity.
Qed.

Lemma run_app (xs ys : list Tick) : forall s,
  run s (xs ++ ys) =
  let '(s1, ms1) := run s xs in
  let '(s2, ms2) := run s1 ys in
  (s2, ms1 ++ ms2).
Proof.
  induction xs as [|x xs IH]; intros s; cbn [app run].
  - destruct (run s ys). reflexivity.
  - destruct (tick s x) as [s1 m]. rewrite IH.
    destruct (run s1 xs) as [s2 ms1]. destruct (run s2 ys). reflexivity.
Qed.

Lemma run_length (ts : list Tick) : forall s,
  length (snd (run s ts)) = length ts.
Proof.
  induction ts as [|t ts IH]; intros s; [reflexivity|].
  cbn [run]. destruct (tick s t) as [s1 m]. specialize (IH s1).
  destruct (run s1 ts). cbn in *. rewrite IH. reflexivity.
Qed.

Lemma two_neutral_cons (x : MoveFrame) (fs : list MoveFrame) :
  two_neutral_in_a_row fs -> two_neutral_in_a_row (x :: fs).
Proof.
  intros (m1 & a & b & m2 & -> & Ha & Hb).
  exists (x :: m1), a, b, m2. repeat split; assumption.
Qed.

(** With the latch cleared and the counter at most 1, the latch can only be
    found set again after two neutral frames in a row, the first of which
    may be the frame that brought the counter to 1. *)
Lemma rearm_needs_two_neutral (fs : list MoveFrame) : forall s,
  move_armed s = false ->
  neutral_run s <= 1 ->
  move_armed (fst (run s (map Play fs))) = true ->
  two_neutral_in_a_row fs \/
  (neutral_run s = 1 /\ exists x fs', fs = x :: fs' /\ neutral_frame x = true).
Proof.
  induction fs as [|x fs IH]; intros s Ha Hr Hend.
  - cbn in Hend. congruence.
  - cbn [map run tick] in Hend.
    destruct (neutral_frame x) eqn:Hn.
    + rewrite (move_block_neutral s x Hn) in Hend.
      destruct (Z.eq_dec (neutral_run s) 1) as [H1|H1].
      * right. split; [exact H1|]. exists x, fs. split; [reflexivity | exact Hn].
      * left.
        set (s1 := set_move s _ _) in Hend.
        assert (Ha1 : move_armed s1 = false).
        { unfold s1. cbn. destruct (neutral_run s + 1 >=? 2) eqn:E; [|exact Ha].
          rewrite Z.geb_leb in E. apply Z.leb_le in E. lia. }
        assert (Hr1 : neutral_run s1 <= 1) by (unfold s1; cbn; lia).
        destruct (run s1 (map Play fs)) as [s2 ms] eqn:Er. cbn [fst] in Hend.
        specialize (IH s1 Ha1 Hr1). rewrite Er in IH.
        destruct (IH Hend) as [H2|(_ & y & fs' & -> & Hy)].
        -- apply two_neutral_cons. exact H2.
        -- exists [], x, y, fs'. repeat split; assumption.
    + destruct (move_block_active s x Hn) as (m & Hm & Hnone).
      rewrite Hm, (Hnone Ha) in Hend. left.
      set (s1 := set_move s _ _) in Hend.
      destruct (run s1 (map Play fs)) as [s2 ms] eqn:Er. cbn [fst] in Hend.
      specialize (IH s1 Ha ltac:(unfold s1; cbn; lia)). rewrite Er in IH.
      destruct (IH Hend) as [H2|(H1 & _)].
      * apply two_neutral_cons. exact H2.
      * unfold s1 in H1. cbn in H1. discriminate.
Qed.

(** A frame on which the cursor moves is not neutral, found the latch set,
    and leaves it cleared with the counter at 0. *)
Lemma move_block_moved (s s1 : InputState) (a : MoveFrame) (m : Z * Z) :
  move_block s a = (s1, Some m) ->
  neutral_frame a = false /\ move_armed s = true /\
  move_armed s1 = false /\ neutral_run s1 = 0.
Proof.
  intros H. destruct (neutral_frame a) eqn:Hn.
  - rewrite (move_block_neutral s a Hn) in H. discriminate.
  - destruct (move_block_active s a Hn) as (m' & Hm & Hnone).
    rewrite Hm in H. injection H as <- ->.
    repeat split.
    destruct (move_armed s); [reflexivity|].
    specialize (Hnone eq_refl). discriminate.
Qed.

(** C10, as stated, fails: [on_calibrate] sets the latch without any
    neutral frame.  A move, then [on_calibrate] (as at the difficulty lock,
    where the same frame goes on to the movement block), then a frame with
    the same nonzero delta: the cursor moves on both frames and no neutral
    frame lies between them. *)
Lemma C10_on_calibrate_rearms_counterexample :
  let a := {| act_move_x := 1; act_move_y := 0;
              act_yaw := 25%Q; act_pitch := 0%Q |} in
  snd (run init [Play a; OnCalibrate; Play a]) =
    [Some (1, 0); None; Some (1, 0)] /\
  (forall a', In (Play a') [Play a; OnCalibrate; Play a] ->
              neutral_frame a' = false) /\
  move_armed (fst (run init [Play a])) = false /\
  move_armed (fst (run init [Play a; OnCalibrate])) = true.
Proof.
  cbv zeta. repeat split.
  intros a' [H|[H|[H|[]]]]; try discriminate; injection H as <-; reflexivity.
Qed.

(** C10, amended.  [consume_move_arm_if_moved(True)] clears the latch; a
    frame with a nonzero delta sets the neutral-run counter to 0; after a
    cursor move, and as long as [on_calibrate] is not called, the latch is
    set again only after the movement block has seen two neutral frames in a
    row; so over every sequence of frames of play without [on_calibrate],
    between any two cursor moves there are two neutral frames in a row. *)
Theorem C10_two_neutral_frames_between_moves :
  (forall s, move_armed (consume_move_arm_if_moved s true) = false) /\
  (forall s mx my,
      mx <> 0 \/ my <> 0 ->
      neutral_run
        (update_neutral_and_arm s mx my cfg.NEUTRAL_FRAMES_REQUIRED) = 0) /\
  (forall s a s1 m fs,
      move_block s a = (s1, Some m) ->
      move_armed (fst (run s1 (map Play fs))) = true ->
      two_neutral_in_a_row fs) /\
  (forall s pre a mid b post,
      let outs := snd (run s (map Play (pre ++ a :: mid ++ b :: post))) in
      nth (length pre) outs None <> None ->
      nth (length pre + S (length mid)) outs None <> None ->
      two_neutral_in_a_row mid).
Proof.
  assert (Hc : forall s a s1 m fs,
             move_block s a = (s1, Some m) ->
             move_armed (fst (run s1 (map Play fs))) = true ->
             two_neutral_in_a_row fs).
  { intros s a s1 m fs Hm Hend.
    destruct (move_block_moved s s1 a m Hm) as (_ & _ & Ha & Hr).
    destruct (rearm_needs_two_neutral fs s1 Ha ltac:(lia) Hend)
      as [H|(H1 & _)]; [exact H | lia]. }
  repeat apply conj.
  - intros s. reflexivity.
  - intros s mx my Hnz. unfold update_neutral_and_arm.
    destruct ((mx =? 0) && (my =? 0)) eqn:E; [|reflexivity].
    apply andb_true_iff in E. destruct E as [Ex Ey].
    apply Z.eqb_eq in Ex, Ey. destruct Hnz; contradiction.
  - exact Hc.
  - intros s pre a mid b post. cbv zeta.
    rewrite map_app. cbn [map]. rewrite map_app. cbn [map].
    rewrite run_app.
    pose proof (run_length (map Play pre) s) as Lpre.
    destruct (run s (map Play pre)) as [s0 ms0]. cbn [snd] in Lpre.
    rewrite length_map in Lpre.
    cbn [run tick]. destruct (move_block s0 a) as [s1 ma] eqn:Ea.
    rewrite run_app.
    pose proof (run_length (map Play mid) s1) as Lmid.
    destruct (run s1 (map Play mid)) as [s2 ms2] eqn:Emid. cbn [snd] in Lmid.
    rewrite length_map in Lmid.
    cbn [run tick]. destruct (move_block s2 b) as [s3 mb] eqn:Eb.
    destruct (run s3 (map Play post)) as [s4 ms4]. cbn [snd].
    rewrite !app_nth2 by lia.
    replace (length pre - length ms0)%nat with 0%nat by lia.
    replace (length pre + S (length mid) - length ms0)%nat
      with (S (length mid)) by lia.
    cbn [nth]. rewrite app_nth2 by lia.
    replace (length mid - length ms2)%nat with 0%nat by lia. cbn [nth].
    intros Hma Hmb.
    destruct ma as [m|]; [|contradiction].
    destruct mb as [m'|]; [|contradiction].
    destruct (move_block_moved s2 s3 b m' Eb) as (_ & Harm & _).
    apply (Hc s0 a s1 m mid Ea). rewrite Emid. exact Harm.
Qed.

Lemma C10_two_neutral_frames_between_moves_witness :
  two_neutral_in_a_row
    [ {| act_move_x := 0; act_move_y := 0; act_yaw := 0%Q; act_pitch := 0%Q |};
      {| act_move_x := 0; act_move_y := 0; act_yaw := 0%Q; act_pitch := 0%Q |} ].
Proof.
  pose (a := {| act_move_x := 1; act_move_y := 0;
                act_yaw := 25%Q; act_pitch := 0%Q |}).
  pose (n := {| act_move_x := 0; act_move_y := 0;
                act_yaw := 0%Q; act_pitch := 0%Q |}).
  destruct C10_two_neutral_frames_between_moves as (_ & _ & _ & H).
  apply (H init [] a [n; n] a []); vm_compute; discriminate.
Defined.

End MoveLatch.

(** ** The theorems at concrete inputs *)

Section Instances.

Import Face Input.
Open Scope Q_scope.

(** C2 on the horizontal axis: one frame of 1, then four frames of -1. *)
Lemma C2_intent_filter_runs_witness :
  moves_x Face.init ([(1, 0)] ++ [(-1, 0); (-1, 1); (-1, 1); (-1, 0)])%Z =
  moves_x Face.init [(1, 0)%Z] ++ [0; 0; -1; -1]%Z.
Proof.
  destruct C2_intent_filter_runs as (_ & _ & H & _).
  apply (H Face.init [(1, 0)%Z] [(-1, 0); (-1, 1); (-1, 1); (-1, 0)]%Z (-1)%Z 4%nat).
  - repeat split.
  - discriminate.
  - lia.
  - cbn. discriminate.
  - reflexivity.
Defined.


(** C8 on the reset machine: a hold sampled at 0, 3 and 4 s has fired. *)
Lemma C8_start_and_armed_invariant_witness :
  let held t := {| now := t; right_closed := true; left_closed := false;
                   game_over := false |} in
  right_only_hold_armed
    (fst (run_right_only 3 Input.init [held 0; held 3; held 4])) =
  negb (fired_in_current_hold right_only [held 0; held 3; held 4]
          (snd (run_right_only 3 Input.init [held 0; held 3; held 4]))).
Proof.
  intros held.
  destruct C8_start_and_armed_invariant as (_ & _ & H & _).
  apply (H 3 Input.init [held 0; held 3; held 4]).
  - discriminate.
  - reflexivity.
Defined.

End Instances.

(** * Further properties of the code *)

(** ** The pose returned by [head_pose_pnp] *)

Section WrapMore.

Import Face.
Open Scope Q_scope.

(** [head_pose_pnp] yields a pose exactly when both solves succeed, and
    then, whatever the Euler angles of the decomposition, the pitch and the
    roll lie in [[-90, 90]] and the yaw in [[-180, 180]]. *)
Theorem head_pose_pnp_in_range (lm : Landmarks) :
  (epnp_ok lm = true /\ iterative_ok lm = true <->
   exists p, head_pose_pnp lm = Some p) /\
  (forall pitch yaw roll,
      head_pose_pnp lm = Some (pitch, yaw, roll) ->
      (-90 <= pitch /\ pitch <= 90) /\
      (-180 <= yaw /\ yaw <= 180) /\
      (-90 <= roll /\ roll <= 90)).
Proof.
  unfold head_pose_pnp.
  destruct (epnp_ok lm), (iterative_ok lm); cbn [negb];
    destruct (angles lm) as [[a0 a1] a2]; split;
    try (split; [intros [H1 H2]; discriminate | intros [p Hp]; discriminate]);
    try (intros pitch yaw roll H; discriminate).
  - split; [intros _; eexists; reflexivity | intros _; split; reflexivity].
  - intros pitch yaw roll H. injection H as <- <- <-.
    destruct (wrap_yaw_range a1) as [Hlo Hhi].
    split; [apply wrap_human_angle_range|].
    split; [|apply wrap_human_angle_range].
    split; [exact Hlo | apply Qlt_le_weak; exact Hhi].
Qed.

Lemma head_pose_pnp_in_range_witness :
  exists p,
    head_pose_pnp {| epnp_ok := true; iterative_ok := true;
                     angles := (100, 200, -100);
                     ear_left := 0.3; ear_right := 0.3 |} = Some p.
Proof.
  destruct (head_pose_pnp_in_range
              {| epnp_ok := true; iterative_ok := true;
                 angles := (100, 200, -100);
                 ear_left := 0.3; ear_right := 0.3 |}) as [[H _] _].
  apply H. split; reflexivity.
Defined.

End WrapMore.

(** ** The intent filter as a block counter *)

Section IntentMore.

Import Face.
Open Scope Z_scope.

Lemma trailing_nil_of_last (x : Z) (xs : list Z) :
  List.last xs 0 <> x -> trailing (fun y => y =? x) xs = [].
Proof.
  destruct xs as [|a xs] using rev_ind; [reflexivity|].
  rewrite last_last, trailing_snoc. intros H.
  destruct (a =? x) eqn:E; [apply Z.eqb_eq in E; contradiction | reflexivity].
Qed.

Lemma block_len_snoc_zero (xs : list Z) : block_len (xs ++ [0]) = 0.
Proof. unfold block_len. rewrite last_last. reflexivity. Qed.

Lemma block_len_snoc_same (xs : list Z) (x : Z) :
  x <> 0 -> List.last xs 0 = x -> block_len (xs ++ [x]) = block_len xs + 1.
Proof.
  intros Hx Hl. unfold block_len. rewrite last_last, Hl.
  destruct (x =? 0) eqn:E; [apply Z.eqb_eq in E; contradiction|].
  rewrite trailing_snoc, Z.eqb_refl, length_app. cbn [length]. lia.
Qed.

Lemma block_len_snoc_fresh (xs : list Z) (x : Z) :
  x <> 0 -> List.last xs 0 <> x -> block_len (xs ++ [x]) = 1.
Proof.
  intros Hx Hl. unfold block_len. rewrite last_last.
  destruct (x =? 0) eqn:E; [apply Z.eqb_eq in E; contradiction|].
  rewrite trailing_snoc, Z.eqb_refl, (trailing_nil_of_last x xs Hl).
  reflexivity.
Qed.

(** One axis, from the reset state: the stored last value is the last raw
    value, the counter is the length of the closing block, and the move
    emitted on the last frame is the raw value when that block has at least
    [INTENT_FRAMES] frames and 0 otherwise. *)
Lemma axis_run_block (xs : list Z) :
  let '(run, last, outs) := axis_run 0 0 xs in
  last = List.last xs 0 /\ run = block_len xs /\
  List.last outs 0 =
    if block_len xs >=? INTENT_FRAMES then List.last xs 0 else 0.
Proof.
  induction xs as [|x xs IH] using rev_ind; [repeat split|].
  rewrite axis_run_app.
  destruct (axis_run 0 0 xs) as [[r l] outs].
  destruct IH as (Hl & Hr & _). cbn [axis_run].
  destruct (axis_step r l x) as [[r1 l1] m] eqn:Es.
  rewrite !last_last. unfold axis_step in Es.
  destruct (x =? 0) eqn:E0.
  - apply Z.eqb_eq in E0. subst x. injection Es as <- <- <-.
    rewrite block_len_snoc_zero. repeat split.
  - apply Z.eqb_neq in E0. destruct (x =? l) eqn:El.
    + apply Z.eqb_eq in El.
      rewrite (block_len_snoc_same xs x E0) by congruence.
      rewrite <- Hr. injection Es as <- <- <-.
      repeat split. congruence.
    + apply Z.eqb_neq in El.
      rewrite (block_len_snoc_fresh xs x E0) by congruence.
      injection Es as <- <- <-. repeat split.
Qed.

(** On each axis and over every sequence of raw inputs fed from the reset
    state, [_apply_intent_filter] keeps in its run counter the length of the
    block of equal nonzero raw values that ends at the latest frame, keeps
    the latest raw value as last value, and emits on the latest frame the
    raw value if that block has at least 3 frames and 0 otherwise. *)
Theorem intent_filter_counts_blocks (c : FaceController) (raws : list (Z * Z)) :
  intent_reset c ->
  let c' := fst (run_intent c raws) in
  let xs := map fst raws in
  let ys := map snd raws in
  (_mx_last c' = List.last xs 0 /\ _mx_run c' = block_len xs /\
   List.last (moves_x c raws) 0 =
     if block_len xs >=? 3 then List.last xs 0 else 0) /\
  (_my_last c' = List.last ys 0 /\ _my_run c' = block_len ys /\
   List.last (moves_y c raws) 0 =
     if block_len ys >=? 3 then List.last ys 0 else 0).
Proof.
  intros (Hxr & Hxl & Hyr & Hyl). cbv zeta.
  rewrite moves_x_axis, moves_y_axis.
  pose proof (run_intent_axes raws c) as H.
  destruct (run_intent c raws) as [c' ms].
  rewrite Hxr, Hxl, Hyr, Hyl in *.
  pose proof (axis_run_block (map fst raws)) as Hx.
  pose proof (axis_run_block (map snd raws)) as Hy.
  destruct (axis_run 0 0 (map fst raws)) as [[xr xl] mxs].
  destruct (axis_run 0 0 (map snd raws)) as [[yr yl] mys].
  destruct H as (H1 & H2 & H3 & H4 & _).
  cbn [fst snd]. rewrite H1, H2, H3, H4.
  split; [exact Hx | exact Hy].
Qed.

Lemma intent_filter_counts_blocks_witness :
  List.last (moves_x init [(1, 0); (-1, 0); (-1, 1); (-1, 1)]) 0 = -1.
Proof.
  pose proof (intent_filter_counts_blocks init
                [(1, 0); (-1, 0); (-1, 1); (-1, 1)]) as H.
  specialize (H ltac:(repeat split)). cbv zeta in H.
  destruct H as [(_ & _ & H) _]. exact H.
Defined.

(** The move emitted on a frame is 0 or the raw value of that frame. *)
Lemma axis_step_out (run last raw : Z) :
  snd (axis_step run last raw) = 0 \/ snd (axis_step run last raw) = raw.
Proof.
  unfold axis_step. destruct (raw =? 0); [left; reflexivity|].
  destruct (raw =? last); cbn;
    try match goal with |- context [if ?b then _ else _] => destruct b end;
    auto.
Qed.

Lemma apply_intent_out (c : FaceController) (rx ry : Z) :
  (fst (snd (_apply_intent_filter c rx ry)) = 0 \/
   fst (snd (_apply_intent_filter c rx ry)) = rx) /\
  (snd (snd (_apply_intent_filter c rx ry)) = 0 \/
   snd (snd (_apply_intent_filter c rx ry)) = ry).
Proof.
  rewrite apply_intent_axes.
  pose proof (axis_step_out (_mx_run c) (_mx_last c) rx) as Hx.
  pose proof (axis_step_out (_my_run c) (_my_last c) ry) as Hy.
  destruct (axis_step (_mx_run c) (_mx_last c) rx) as [[? ?] ?].
  destruct (axis_step (_my_run c) (_my_last c) ry) as [[? ?] ?].
  split; assumption.
Qed.

(** Right after [calibrate], whatever the state before and whatever raw
    values follow, the filter emits no move on the first two frames. *)
Theorem no_move_for_two_frames_after_calibrate
    (c : FaceController) (raws : list (Z * Z)) (i : nat) :
  (i < 2)%nat ->
  nth i (moves_x (calibrate c) raws) 0 = 0 /\
  nth i (moves_y (calibrate c) raws) 0 = 0.
Proof.
  intros Hi.
  assert (Hax : forall xs, nth i (snd (axis_run 0 0 xs)) 0 = 0).
  { intros xs. destruct xs as [|a xs]; [destruct i; reflexivity|].
    cbn [axis_run]. unfold axis_step at 1.
    destruct (a =? 0) eqn:Ea.
    - destruct xs as [|b xs].
      + destruct i as [|[|i]]; reflexivity.
      + cbn [axis_run].
        pose proof (axis_step_out 0 0 b) as Hb.
        destruct (b =? 0) eqn:Eb.
        * apply Z.eqb_eq in Eb. subst b. rewrite axis_step_zero.
          destruct (axis_run 0 0 xs) as [[? ?] ?].
          destruct i as [|[|i]]; try reflexivity; lia.
        * apply Z.eqb_neq in Eb.
          rewrite (axis_step_fresh 0 0 b Eb (not_eq_sym Eb)).
          destruct (axis_run 1 b xs) as [[? ?] ?].
          destruct i as [|[|i]]; try reflexivity; lia.
    - cbn. destruct xs as [|b xs].
      + destruct i as [|[|i]]; reflexivity.
      + cbn [axis_run]. unfold axis_step at 1.
        destruct (b =? 0).
        * destruct (axis_run 0 0 xs) as [[? ?] ?].
          destruct i as [|[|i]]; try reflexivity; lia.
        * destruct (b =? a); cbn.
          -- destruct (axis_run 2 a xs) as [[? ?] ?].
             destruct i as [|[|i]]; try reflexivity; lia.
          -- destruct (axis_run 1 b xs) as [[? ?] ?].
             destruct i as [|[|i]]; try reflexivity; lia. }
  rewrite moves_x_axis, moves_y_axis.
  destruct c as [yh ph rh lh eh bl br by_ bp bo xr yr xl yl].
  split; apply Hax.
Qed.

Lemma no_move_for_two_frames_after_calibrate_witness :
  nth 1 (moves_x (calibrate init) [(1, 0); (1, 0); (1, 0)]) 0 = 0.
Proof.
  apply (no_move_for_two_frames_after_calibrate init
           [(1, 0); (1, 0); (1, 0)] 1). lia.
Defined.

End IntentMore.

(** ** What [read_actions] reports and what it leaves alone *)

Section ReadMore.

Import Face.
Open Scope Q_scope.

Lemma raw_move_x_cases (yaw_s : Q) :
  (yaw_s < -18 /\ raw_move_x yaw_s = 1%Z) \/
  (18 < yaw_s /\ raw_move_x yaw_s = (-1)%Z) \/
  (-18 <= yaw_s /\ yaw_s <= 18 /\ raw_move_x yaw_s = 0%Z).
Proof.
  unfold raw_move_x, INVERT_X.
  destruct (Py.ltb yaw_s (- YAW_TH)) eqn:E1.
  - apply ltb_true in E1. unfold YAW_TH in E1.
    left. split; [lra | reflexivity].
  - apply ltb_false in E1. destruct (Py.gtb yaw_s YAW_TH) eqn:E2.
    + apply gtb_true in E2. unfold YAW_TH in E2.
      right. left. split; [lra | reflexivity].
    + apply gtb_false in E2. unfold YAW_TH in E1, E2.
      right. right. repeat split; lra.
Qed.

(** The dead-zone test of the source does not change the result: the raw
    vertical move is decided by the two engage thresholds alone. *)
Lemma raw_move_y_cases (pitch_s : Q) :
  (pitch_s < -20 /\ raw_move_y pitch_s = 1%Z) \/
  (20 < pitch_s /\ raw_move_y pitch_s = (-1)%Z) \/
  (-20 <= pitch_s /\ pitch_s <= 20 /\ raw_move_y pitch_s = 0%Z).
Proof.
  unfold raw_move_y.
  destruct (Py.ltb pitch_s (- PITCH_TH)) eqn:E1.
  - apply ltb_true in E1. unfold PITCH_TH in E1.
    left. split; [lra | reflexivity].
  - apply ltb_false in E1. destruct (Py.gtb pitch_s PITCH_TH) eqn:E2.
    + apply gtb_true in E2. unfold PITCH_TH in E2.
      right. left. split; [lra | reflexivity].
    + apply gtb_false in E2. unfold PITCH_TH in E1, E2.
      right. right.
      destruct (Py.ltb (Qabs pitch_s) PITCH_DEADZONE); repeat split; lra.
Qed.

(** Whatever the controller state and the frame, the record returned by
    [read_actions] has both moves in {-1, 0, 1}, and a nonzero move agrees
    with the reported angle: a horizontal move of 1 comes with a yaw below
    -18 and a move of -1 with a yaw above 18 (the axis is inverted); a
    vertical move of 1 comes with a pitch below -20 and a move of -1 with a
    pitch above 20. *)
Theorem read_actions_moves_agree_with_angles
    (c c' : FaceController) (cap : Capture) (a : Actions) :
  read_actions c cap = (c', Some a) ->
  (move_x a = (-1)%Z \/ move_x a = 0%Z \/ move_x a = 1%Z) /\
  (move_y a = (-1)%Z \/ move_y a = 0%Z \/ move_y a = 1%Z) /\
  (move_x a = 1%Z -> yaw a < -18) /\
  (move_x a = (-1)%Z -> 18 < yaw a) /\
  (move_y a = 1%Z -> pitch a < -20) /\
  (move_y a = (-1)%Z -> 20 < pitch a).
Proof.
  intros H. destruct cap as [| |lm].
  - discriminate.
  - injection H as <- <-. cbn.
    repeat split; auto; intros; discriminate.
  - destruct (head_pose_pnp lm) as [p|] eqn:Hp.
    + rewrite (read_actions_pose c lm p Hp) in H. injection H as <- <-.
      cbn [move_x move_y yaw pitch].
      set (ys := Py.mean (yaw_hist (with_pose c p)) - baseline_yaw c).
      set (ps := Py.mean (pitch_hist (with_pose c p)) - baseline_pitch c).
      destruct (apply_intent_out (with_pose c p) (raw_move_x ys) (raw_move_y ps))
        as [Hx Hy].
      set (mx := fst (snd _)) in *. set (my := snd (snd _)) in *.
      destruct (raw_move_x_cases ys) as [[? Rx]|[[? Rx]|(? & ? & Rx)]];
      destruct (raw_move_y_cases ps) as [[? Ry]|[[? Ry]|(? & ? & Ry)]];
      rewrite Rx in Hx; rewrite Ry in Hy;
      destruct Hx as [Hx|Hx]; destruct Hy as [Hy|Hy]; rewrite Hx, Hy;
      repeat split; auto; intros; try discriminate; assumption.
    + rewrite (read_actions_no_pose c lm Hp) in H. injection H as <- <-. cbn.
      repeat split; auto; intros; discriminate.
Qed.

Lemma read_actions_moves_agree_with_angles_witness :
  exists c' a,
    read_actions init
      (FaceSeen {| epnp_ok := true; iterative_ok := true;
                   angles := (0, 30, 0); ear_left := 0.3; ear_right := 0.3 |})
    = (c', Some a) /\
    (move_x a = (-1)%Z \/ move_x a = 0%Z \/ move_x a = 1%Z).
Proof.
  destruct (read_actions init
              (FaceSeen {| epnp_ok := true; iterative_ok := true;
                           angles := (0, 30, 0);
                           ear_left := 0.3; ear_right := 0.3 |}))
    as [c' [a|]] eqn:E.
  - exists c', a. split; [reflexivity|].
    apply (read_actions_moves_agree_with_angles _ _ _ _ E).
  - vm_compute in E. discriminate.
Defined.

Lemma deque_append_bounded (cap : nat) (d : list Q) (x : Q) :
  (length d <= cap)%nat -> (length (Py.deque_append cap d x) <= cap)%nat.
Proof.
  intros H. unfold Py.deque_append.
  destruct (Nat.ltb cap (length (d ++ [x]))) eqn:E.
  - destruct d as [|y d]; cbn in *; [lia|]. rewrite length_app. cbn. lia.
  - apply Nat.ltb_ge in E. exact E.
Qed.

(** [read_actions] never writes a baseline; it returns no record exactly
    when the camera gave no frame, and then the controller is untouched; and
    windows that are within their capacities (9 for angles, 5 for eye
    ratios) stay within them. *)
Theorem read_actions_frame_conditions
    (c : FaceController) (cap : Capture) :
  let c' := fst (read_actions c cap) in
  (baseline_earL c' = baseline_earL c /\ baseline_earR c' = baseline_earR c /\
   baseline_yaw c' = baseline_yaw c /\ baseline_pitch c' = baseline_pitch c /\
   baseline_roll c' = baseline_roll c) /\
  (snd (read_actions c cap) = None <-> cap = ReadFailed) /\
  (cap = ReadFailed -> c' = c) /\
  ((length (yaw_hist c) <= 9 /\ length (pitch_hist c) <= 9 /\
    length (roll_hist c) <= 9 /\ length (earL_hist c) <= 5 /\
    length (earR_hist c) <= 5)%nat ->
   (length (yaw_hist c') <= 9 /\ length (pitch_hist c') <= 9 /\
    length (roll_hist c') <= 9 /\ length (earL_hist c') <= 5 /\
    length (earR_hist c') <= 5)%nat).
Proof.
  cbv zeta. destruct cap as [| |lm].
  - cbn. split; [repeat split|]. split; [tauto|]. split; [reflexivity | tauto].
  - cbn. split; [repeat split|].
    split; [split; discriminate|]. split; [reflexivity | tauto].
  - assert (Hshape : exists p xr yr xl yl,
              fst (read_actions c (FaceSeen lm)) =
                with_ears (set_intent (match p with
                                       | Some q => with_pose c q
                                       | None => c
                                       end) xr yr xl yl) lm /\
              snd (read_actions c (FaceSeen lm)) <> None /\
              (p = None -> xr = _mx_run c /\ yr = _my_run c /\
                           xl = _mx_last c /\ yl = _my_last c)).
    { destruct (head_pose_pnp lm) as [p|] eqn:Hp.
      - rewrite (read_actions_pose c lm p Hp). cbn [fst snd].
        destruct (apply_intent_frame (with_pose c p)
                    (raw_move_x (Py.mean (yaw_hist (with_pose c p)) - baseline_yaw c))
                    (raw_move_y (Py.mean (pitch_hist (with_pose c p)) - baseline_pitch c)))
          as (xr & yr & xl & yl & Hc).
        exists (Some p), xr, yr, xl, yl. rewrite Hc.
        split; [reflexivity|]. split; [discriminate | discriminate].
      - rewrite (read_actions_no_pose c lm Hp). cbn [fst snd].
        exists None, (_mx_run c), (_my_run c), (_mx_last c), (_my_last c).
        split; [destruct c; reflexivity|].
        split; [discriminate | intros _; repeat split]. }
    destruct Hshape as (p & xr & yr & xl & yl & Hc & Hr & _).
    rewrite Hc. split; [|split; [|split]].
    + destruct p as [[[pi ya] ro]|]; repeat split.
    + split; [intros H; contradiction | discriminate].
    + discriminate.
    + intros (Hy & Hp & Hro & Hl & He).
      destruct p as [[[pi ya] ro]|]; cbn;
        repeat split; try assumption; apply deque_append_bounded; assumption.
Qed.

Lemma read_actions_frame_conditions_witness :
  le (length (earL_hist (fst (read_actions init
        (FaceSeen {| epnp_ok := false; iterative_ok := false;
                     angles := (0, 0, 0);
                     ear_left := 0.3; ear_right := 0.3 |}))))) 5.
Proof.
  pose proof (read_actions_frame_conditions init
     (FaceSeen {| epnp_ok := false; iterative_ok := false;
                  angles := (0, 0, 0);
                  ear_left := 0.3; ear_right := 0.3 |})) as H.
  cbv zeta in H. destruct H as (_ & _ & _ & H).
  apply H. cbn. lia.
Defined.

End ReadMore.

(** ** The two hold handlers side by side *)

Section HoldMore.

Import Input.
Open Scope Q_scope.




(** The two handlers act on separate fields: run on the same frame in
    either order they give the same state and the same two flags, and
    neither writes the movement latch, the neutral-run counter or the time
    the face was last seen. *)
Theorem hold_handlers_commute
    (s : InputState) (t : Q) (r l : bool) (th1 th2 : Q) (go : bool) :
  let ro := handle_right_only_hold s t r l th1 in
  let bo := handle_both_hold s t r l th2 go in
  handle_both_hold (fst ro) t r l th2 go = 
    (fst (handle_right_only_hold (fst bo) t r l th1), snd bo) /\
  snd (handle_right_only_hold (fst bo) t r l th1) = snd ro /\
  (move_armed (fst ro) = move_armed s /\ neutral_run (fst ro) = neutral_run s /\
   last_face_seen_time (fst ro) = last_face_seen_time s /\
   both_hold_start (fst ro) = both_hold_start s /\
   both_hold_armed (fst ro) = both_hold_armed s) /\
  (move_armed (fst bo) = move_armed s /\ neutral_run (fst bo) = neutral_run s /\
   last_face_seen_time (fst bo) = last_face_seen_time s /\
   right_only_hold_start (fst bo) = right_only_hold_start s /\
   right_only_hold_armed (fst bo) = right_only_hold_armed s).
Proof.
  cbv zeta.
  rewrite (handle_right_only_hold_step s), (handle_both_hold_step s).
  destruct (hold_step th1 (right_only_hold_start s) (right_only_hold_armed s)
              t (r && negb l)) as [[st1 ar1] b1] eqn:E1.
  destruct (hold_step th2 (both_hold_start s) (both_hold_armed s)
              t (negb go && (l && r))) as [[st2 ar2] b2] eqn:E2.
  cbn [fst snd].
  rewrite handle_both_hold_step, handle_right_only_hold_step.
  cbn [both_hold_start both_hold_armed right_only_hold_start
       right_only_hold_armed set_right_only set_both].
  rewrite E1, E2. cbn [fst snd].
  repeat split.
Qed.

End HoldMore.

(** ** The place hold under the game-over gate *)

Section GateMore.

Import Input.
Open Scope Q_scope.



End GateMore.

(** ** The movement block: axis choice, progress and re-arming *)

Section MoveMore.

Import Input Main.
Open Scope Z_scope.

(** The pair [choose_axis_no_diagonal] returns is not diagonal and is made
    of the inputs and zeros. *)
Lemma choose_axis_shape (mx my : Z) (yaw pitch : Q) :
  let r := choose_axis_no_diagonal mx my yaw pitch in
  (fst r = 0 \/ snd r = 0) /\
  (fst r = mx \/ fst r = 0) /\ (snd r = my \/ snd r = 0).
Proof.
  cbv zeta. unfold choose_axis_no_diagonal.
  destruct (Z.eqb_spec mx 0) as [Ex|Ex]; destruct (Z.eqb_spec my 0) as [Ey|Ey];
    cbn [negb andb fst snd]; auto.
  destruct (Py.geb (Qabs yaw) (Qabs pitch)); cbn [fst snd]; auto.
Qed.

(** [choose_axis_no_diagonal] never returns a diagonal: one of the two
    results is 0; each result is the input or 0; a pair that is not diagonal
    is returned as it is; and of a diagonal pair the horizontal move is kept
    exactly when the yaw is at least as large in magnitude as the pitch. *)
Theorem choose_axis_never_diagonal (mx my : Z) (yaw pitch : Q) :
  let r := choose_axis_no_diagonal mx my yaw pitch in
  (fst r = 0 \/ snd r = 0) /\
  (fst r = mx \/ fst r = 0) /\ (snd r = my \/ snd r = 0) /\
  (mx = 0 \/ my = 0 -> r = (mx, my)) /\
  (mx <> 0 -> my <> 0 ->
   ((Qabs pitch <= Qabs yaw)%Q -> r = (mx, 0)) /\
   ((Qabs yaw < Qabs pitch)%Q -> r = (0, my))).
Proof.
  cbv zeta. unfold choose_axis_no_diagonal.
  destruct (Z.eqb_spec mx 0) as [Ex|Ex]; destruct (Z.eqb_spec my 0) as [Ey|Ey];
    cbn [negb andb fst snd].
  - repeat split; auto; intros; contradiction.
  - repeat split; auto; intros; contradiction.
  - repeat split; auto; intros; contradiction.
  - destruct (Py.geb (Qabs yaw) (Qabs pitch)) eqn:E; cbn [fst snd].
    + apply geb_true in E.
      split; [right; reflexivity|]. split; [left; reflexivity|].
      split; [right; reflexivity|].
      split; [intros [Hz|Hz]; contradiction|].
      intros _ _. split; [reflexivity | intros Hlt; lra].
    + apply geb_false in E.
      split; [left; reflexivity|]. split; [right; reflexivity|].
      split; [left; reflexivity|].
      split; [intros [Hz|Hz]; contradiction|].
      intros _ _. split; [intros Hle; lra | reflexivity].
Qed.

Lemma choose_axis_never_diagonal_witness :
  choose_axis_no_diagonal 1 (-1) 25 30 = (0, -1).
Proof.
  destruct (choose_axis_never_diagonal 1 (-1) 25 30) as (_ & _ & _ & _ & H).
  apply H; try discriminate. vm_compute. reflexivity.
Defined.

(** Every cursor move made by the movement block is one step along one
    axis; and with the latch set, a frame that is not neutral and whose
    deltas are in {-1, 0, 1} always moves the cursor, by the pair that
    [choose_axis_no_diagonal] returns, and clears the latch. *)
Theorem move_block_steps_once (s : InputState) (a : MoveFrame) :
  (forall m, snd (move_block s a) = Some m ->
             m = (-1, 0) \/ m = (1, 0) \/ m = (0, 1) \/ m = (0, -1)) /\
  (move_armed s = true ->
   neutral_frame a = false ->
   (act_move_x a = -1 \/ act_move_x a = 0 \/ act_move_x a = 1) ->
   (act_move_y a = -1 \/ act_move_y a = 0 \/ act_move_y a = 1) ->
   snd (move_block s a) =
     Some (choose_axis_no_diagonal (act_move_x a) (act_move_y a)
             (act_yaw a) (act_pitch a)) /\
   move_armed (fst (move_block s a)) = false).
Proof.
  split.
  - intros m. unfold move_block.
    destruct (choose_axis_no_diagonal _ _ _ _) as [mx my].
    destruct (move_armed (update_neutral_and_arm s mx my _)); cbn [snd];
      [|discriminate].
    destruct (mx =? -1); [intros H; injection H as <-; auto|].
    destruct (mx =? 1); [intros H; injection H as <-; auto|].
    destruct (my =? 1); [intros H; injection H as <-; auto 6|].
    destruct (my =? -1); [intros H; injection H as <-; auto 6|].
    discriminate.
  - intros Harm Hn Hx Hy.
    pose proof (choose_axis_shape (act_move_x a) (act_move_y a)
                  (act_yaw a) (act_pitch a)) as Hc.
    pose proof (choose_axis_neutral a) as Hne.
    unfold move_block.
    destruct (choose_axis_no_diagonal _ _ _ _) as [mx my].
    cbv zeta in Hc. cbn [fst snd] in Hc.
    destruct Hc as (Hdiag & Hmx & Hmy).
    rewrite Hn in Hne. unfold update_neutral_and_arm. rewrite Hne.
    cbn [move_armed set_move]. rewrite Harm.
    assert (Hcase : (mx = -1 /\ my = 0) \/ (mx = 1 /\ my = 0) \/
                    (mx = 0 /\ my = 1) \/ (mx = 0 /\ my = -1)).
    { apply andb_false_iff in Hne.
      rewrite !Z.eqb_neq in Hne. lia. }
    destruct Hcase as [[-> ->]|[[-> ->]|[[-> ->]|[-> ->]]]];
      cbn; split; reflexivity.
Qed.

Lemma move_block_steps_once_witness :
  snd (move_block init {| act_move_x := 1; act_move_y := -1;
                          act_yaw := 25%Q; act_pitch := 30%Q |}) =
  Some (0, -1).
Proof.
  destruct (move_block_steps_once init
              {| act_move_x := 1; act_move_y := -1;
                 act_yaw := 25%Q; act_pitch := 30%Q |}) as [_ H].
  destruct H as [H _]; [reflexivity | reflexivity | cbn; lia | cbn; lia |].
  exact H.
Defined.

Lemma neutral_run_nonneg (ts : list Tick) : forall s,
  0 <= neutral_run s -> 0 <= neutral_run (fst (run s ts)).
Proof.
  induction ts as [|t ts IH]; intros s Hs; [exact Hs|].
  cbn [run]. destruct (tick s t) as [s1 m] eqn:Et.
  specialize (IH s1). destruct (run s1 ts) as [s2 ms]. cbn [fst] in *.
  apply IH. destruct t as [a|]; cbn [tick] in Et.
  - destruct (neutral_frame a) eqn:Hn.
    + rewrite (move_block_neutral s a Hn) in Et. injection Et as <- _.
      cbn. lia.
    + destruct (move_block_active s a Hn) as (m' & Hm & _).
      rewrite Hm in Et. injection Et as <- _. cbn. lia.
  - injection Et as <- _. cbn. lia.
Qed.

(** Two neutral frames in a row are enough to set the latch again: after
    any sequence of frames of play and calls of [on_calibrate] begun in a
    state whose counter is not negative (the initial state is one), two
    neutral frames leave the latch set, and no cursor move is made on them. *)
Theorem two_neutral_frames_rearm
    (s : InputState) (ts : list Tick) (a b : MoveFrame) :
  0 <= neutral_run s ->
  neutral_frame a = true -> neutral_frame b = true ->
  move_armed (fst (run s (ts ++ [Play a; Play b]))) = true /\
  snd (run (fst (run s ts)) [Play a; Play b]) = [None; None].
Proof.
  intros Hs Ha Hb. rewrite run_app.
  pose proof (neutral_run_nonneg ts s Hs) as Hr.
  destruct (run s ts) as [s1 ms]. cbn [fst] in Hr.
  split.
  - cbn [run tick]. rewrite (move_block_neutral s1 a Ha).
    rewrite (move_block_neutral _ b Hb). cbn [fst neutral_run set_move].
    cbn [move_armed].
    destruct (neutral_run s1 + 1 + 1 >=? 2) eqn:E; [reflexivity|].
    rewrite Z.geb_leb in E. apply Z.leb_gt in E. lia.
  - cbn [run tick fst]. rewrite (move_block_neutral s1 a Ha).
    rewrite (move_block_neutral _ b Hb). reflexivity.
Qed.

Lemma two_neutral_frames_rearm_witness :
  let go := {| act_move_x := 1; act_move_y := 0;
               act_yaw := 25%Q; act_pitch := 0%Q |} in
  let rest := {| act_move_x := 0; act_move_y := 0;
                 act_yaw := 0%Q; act_pitch := 0%Q |} in
  move_armed (fst (run init ([Play go; Play go] ++ [Play rest; Play rest])))
  = true.
Proof.
  intros go rest.
  apply (two_neutral_frames_rearm init [Play go; Play go] rest rest);
    [cbn; lia | reflexivity | reflexivity].
Defined.

End MoveMore.

(** ** The board of the game *)

Section BoardFacts.

Import Game.
Open Scope Z_scope.

Lemma wf_board_cells (b : Board) :
  wf_board b ->
  exists a0 a1 a2 b0 b1 b2 c0 c1 c2 : Cell,
    b = [[a0; a1; a2]; [b0; b1; b2]; [c0; c1; c2]].
Proof.
  intros [Hl Hr].
  destruct b as [|[|a0 [|a1 [|a2 [|]]]] [|[|b0 [|b1 [|b2 [|]]]] [|[|c0 [|c1 [|c2 [|]]]] [|]]]];
    try discriminate;
    repeat match goal with
           | H : Forall _ (_ :: _) |- _ => inversion H; clear H; subst
           end; try discriminate.
  exists a0, a1, a2, b0, b1, b2, c0, c1, c2. reflexivity.
Qed.

Lemma in_board_cases (r c : Z) :
  in_board (r, c) ->
  (r = 0 \/ r = 1 \/ r = 2) /\ (c = 0 \/ c = 1 \/ c = 2).
Proof. unfold in_board. cbn. lia. Qed.

Lemma in_board_all_cells (rc : Z * Z) : in_board rc <-> In rc all_cells.
Proof.
  destruct rc as [r c]. split.
  - intros H. destruct (in_board_cases r c H) as [ [ -> | [ -> | -> ] ] [ -> | [ -> | -> ] ] ];
      cbn; tauto.
  - cbn. intros H.
    repeat (destruct H as [H|H]; [injection H as <- <-; unfold in_board; cbn; lia|]).
    contradiction.
Qed.

Ltac board_cells b H :=
  destruct (wf_board_cells b H)
    as (k00 & k01 & k02 & k10 & k11 & k12 & k20 & k21 & k22 & ->).

Ltac cell_cases r c H :=
  destruct (in_board_cases r c H) as [ [ -> | [ -> | -> ] ] [ -> | [ -> | -> ] ] ].

Lemma get_total (b : Board) (rc : Z * Z) :
  wf_board b -> in_board rc -> exists v, holds b rc v.
Proof.
  intros Hb Hrc. board_cells b Hb. destruct rc as [r c].
  cell_cases r c Hrc; eexists; reflexivity.
Qed.

(** Writing a cell of the board: it succeeds, keeps the shape, stores the
    value and leaves every other cell as it was. *)
Lemma set_spec (b : Board) (rc : Z * Z) (v : Cell) :
  wf_board b -> in_board rc ->
  exists b',
    set b (fst rc) (snd rc) v = Some b' /\ wf_board b' /\ holds b' rc v /\
    forall rc', in_board rc' -> rc' <> rc ->
                get b' (fst rc') (snd rc') = get b (fst rc') (snd rc').
Proof.
  intros Hb Hrc. board_cells b Hb. destruct rc as [r c].
  cell_cases r c Hrc; eexists; (split; [reflexivity|]);
    (split; [split; [reflexivity | repeat constructor]|]);
    (split; [reflexivity|]);
    intros [r' c'] Hrc' Hne; cell_cases r' c' Hrc';
      try reflexivity; contradiction.
Qed.

(** Writing back the value a cell held undoes a write. *)
Lemma set_restore (b b1 : Board) (rc : Z * Z) (v0 v : Cell) :
  wf_board b -> in_board rc -> holds b rc v0 ->
  set b (fst rc) (snd rc) v = Some b1 ->
  set b1 (fst rc) (snd rc) v0 = Some b.
Proof.
  intros Hb Hrc Hv Hs. board_cells b Hb. destruct rc as [r c].
  cell_cases r c Hrc; cbn in Hv, Hs; injection Hv as <-; injection Hs as <-;
    reflexivity.
Qed.

Lemma holds_unique (b : Board) (rc : Z * Z) (v v' : Cell) :
  holds b rc v -> holds b rc v' -> v = v'.
Proof. unfold holds. congruence. Qed.

Lemma open_of_spec (b : Board) (cells : list (Z * Z)) :
  wf_board b -> (forall rc, In rc cells -> in_board rc) ->
  exists l,
    open_of b cells = Some l /\
    forall rc, In rc l <-> In rc cells /\ holds b rc None.
Proof.
  intros Hb. induction cells as [|[r c] cells IH]; intros Hin.
  - exists []. split; [reflexivity|]. intros rc. cbn. tauto.
  - destruct (get_total b (r, c) Hb (Hin _ (or_introl eq_refl))) as [v Hv].
    destruct IH as (l & Hl & Hspec); [intros rc H; apply Hin; right; exact H|].
    cbn [open_of]. unfold holds in Hv. cbn [fst snd] in Hv.
    rewrite Hv. cbn [bind]. rewrite Hl. cbn [bind].
    destruct v as [m|]; cbn [is_none]; eexists; (split; [reflexivity|]);
      intros rc; cbn [In]; rewrite ?Hspec; split.
    + intros [H1 H2]. split; [right; exact H1 | exact H2].
    + intros [[<-|H1] H2]; [|split; assumption].
      unfold holds in H2. cbn [fst snd] in H2. congruence.
    + intros [<-|[H1 H2]]; [split; [left; reflexivity | exact Hv]|].
      split; [right; exact H1 | exact H2].
    + intros [[<-|H1] H2]; [left; reflexivity | right; split; assumption].
Qed.

Lemma empties_spec (b : Board) :
  wf_board b ->
  exists es,
    empties b = Some es /\
    forall rc, In rc es <-> in_board rc /\ holds b rc None.
Proof.
  intros Hb.
  destruct (open_of_spec b all_cells Hb) as (es & He & Hs).
  - intros rc. apply in_board_all_cells.
  - exists es. split; [exact He|]. intros rc.
    rewrite Hs, in_board_all_cells. reflexivity.
Qed.

Lemma choice_spec (A : Type) (rnd : nat) (l : list A) :
  l <> [] -> exists x, PyList.choice rnd l = Some x /\ In x l.
Proof.
  intros Hne. destruct l as [|a l]; [contradiction|].
  unfold PyList.choice.
  destruct (nth_error (a :: l) (rnd mod length (a :: l))) as [x|] eqn:E.
  - exists x. split; [reflexivity|]. eapply nth_error_In. exact E.
  - apply nth_error_None in E.
    pose proof (Nat.mod_upper_bound rnd (length (a :: l))) as Hlt.
    cbn [length] in *. lia.
Qed.

Lemma cell_eqb_eq (x y : Cell) : cell_eqb x y = true <-> x = y.
Proof.
  destruct x as [[]|], y as [[]|]; cbn; split; intros H;
    try reflexivity; try discriminate.
Qed.

Lemma chain_true (x y z : Cell) (p : Mark) :
  cell_eqb x y && (cell_eqb y z && cell_eqb z (Some p)) = true <->
  x = Some p /\ y = Some p /\ z = Some p.
Proof.
  rewrite !andb_true_iff, !cell_eqb_eq. split.
  - intros (-> & -> & ->). repeat split.
  - intros (-> & -> & ->). repeat split.
Qed.

Lemma complete_true (x y z : Cell) :
  complete (x, y, z) = true <-> exists m, x = Some m /\ y = Some m /\ z = Some m.
Proof.
  unfold complete. rewrite !andb_true_iff, !cell_eqb_eq. split.
  - intros (Hn & -> & ->). destruct z as [m|]; [|discriminate].
    exists m. repeat split.
  - intros (m & -> & -> & ->). repeat split.
Qed.

Lemma win_line_shape (line : list (Z * Z)) :
  In line win_lines ->
  exists q0 q1 q2,
    line = [q0; q1; q2] /\ in_board q0 /\ in_board q1 /\ in_board q2.
Proof.
  cbn. intros H.
  repeat (destruct H as [<-|H];
          [do 3 eexists; split; [reflexivity|]; unfold in_board; cbn; lia|]).
  contradiction.
Qed.

Lemma chain3_cells (b : Board) (q0 q1 q2 : Z * Z) (x y z : Cell) (p : Mark) :
  holds b q0 x -> holds b q1 y -> holds b q2 z ->
  exists w,
    chain3 b [q0; q1; q2] p = Some w /\
    (w = true <-> forall rc, In rc [q0; q1; q2] -> holds b rc (Some p)).
Proof.
  intros H0 H1 H2.
  exists (cell_eqb x y && (cell_eqb y z && cell_eqb z (Some p))). split.
  - destruct q0 as [r0 c0], q1 as [r1 c1], q2 as [r2 c2].
    unfold holds in H0, H1, H2. cbn [fst snd] in H0, H1, H2.
    cbn [chain3]. rewrite H0, H1. cbn [bind].
    destruct (cell_eqb x y); [|reflexivity]. rewrite H2. reflexivity.
  - rewrite chain_true. split.
    + intros (-> & -> & ->) rc [<-|[<-|[<-|[]]]]; assumption.
    + intros H. repeat split.
      * apply (holds_unique b q0); [exact H0 | apply H; cbn; tauto].
      * apply (holds_unique b q1); [exact H1 | apply H; cbn; tauto].
      * apply (holds_unique b q2); [exact H2 | apply H; cbn; tauto].
Qed.

(** On a board of the right shape the chained comparison of a line is true
    exactly when its three cells hold [p]. *)
Lemma chain3_spec (b : Board) (line : list (Z * Z)) (p : Mark) :
  wf_board b -> In line win_lines ->
  exists w,
    chain3 b line p = Some w /\
    (w = true <-> forall rc, In rc line -> holds b rc (Some p)).
Proof.
  intros Hb Hin.
  destruct (win_line_shape line Hin) as (q0 & q1 & q2 & -> & I0 & I1 & I2).
  destruct (get_total b q0 Hb I0) as [x Hx].
  destruct (get_total b q1 Hb I1) as [y Hy].
  destruct (get_total b q2 Hb I2) as [z Hz].
  apply (chain3_cells b q0 q1 q2 x y z p Hx Hy Hz).
Qed.

Lemma any_line_spec (b : Board) (p : Mark) (lines : list (list (Z * Z))) :
  (forall line, In line lines -> exists w, chain3 b line p = Some w) ->
  exists w,
    any_line b p lines = Some w /\
    (w = true <-> exists line, In line lines /\ chain3 b line p = Some true).
Proof.
  induction lines as [|line lines IH]; intros Hall.
  - exists false. split; [reflexivity|].
    split; [discriminate | intros (l & [] & _)].
  - destruct (Hall line (or_introl eq_refl)) as [w Hw].
    cbn [any_line]. rewrite Hw. cbn [bind]. destruct w.
    + exists true. split; [reflexivity|]. split; [|reflexivity].
      intros _. exists line. split; [left; reflexivity | exact Hw].
    + destruct IH as (w' & Hw' & Hiff);
        [intros l Hl; apply Hall; right; exact Hl|].
      exists w'. split; [exact Hw'|]. rewrite Hiff. split.
      * intros (l & Hl & Hc). exists l. split; [right; exact Hl | exact Hc].
      * intros (l & [<-|Hl] & Hc); [congruence|].
        exists l. split; assumption.
Qed.

(** [is_win] answers, and answers true exactly when [p] owns a line. *)
Lemma is_win_spec (b : Board) (p : Mark) :
  wf_board b ->
  exists w, is_win b p = Some w /\ (w = true <-> wins b p).
Proof.
  intros Hb. unfold is_win.
  destruct (any_line_spec b p win_lines) as (w & Hw & Hiff).
  - intros line Hl. destruct (chain3_spec b line p Hb Hl) as (w & Hw & _).
    exists w. exact Hw.
  - exists w. split; [exact Hw|]. rewrite Hiff. unfold wins. split.
    + intros (line & Hl & Hc). exists line. split; [exact Hl|].
      destruct (chain3_spec b line p Hb Hl) as (w' & Hw' & Hi).
      apply Hi. congruence.
    + intros (line & Hl & Hh). exists line. split; [exact Hl|].
      destruct (chain3_spec b line p Hb Hl) as (w' & Hw' & Hi).
      rewrite Hw'. f_equal. apply Hi. exact Hh.
Qed.

Lemma all_filled_spec (b : Board) (cells : list (Z * Z)) :
  wf_board b -> (forall rc, In rc cells -> in_board rc) ->
  exists f,
    all_filled b cells = Some f /\
    (f = true <-> forall rc, In rc cells -> exists m, holds b rc (Some m)).
Proof.
  intros Hb. induction cells as [|[r c] cells IH]; intros Hin.
  - exists true. split; [reflexivity|]. split; [intros _ rc [] | reflexivity].
  - destruct (get_total b (r, c) Hb (Hin _ (or_introl eq_refl))) as [v Hv].
    cbn [all_filled]. pose proof Hv as Hv'. unfold holds in Hv'.
    cbn [fst snd] in Hv'. rewrite Hv'. cbn [bind].
    destruct v as [m|]; cbn [is_none].
    + destruct IH as (f & Hf & Hiff); [intros rc H; apply Hin; right; exact H|].
      exists f. split; [exact Hf|]. rewrite Hiff. split.
      * intros H rc [<-|Hrc]; [exists m; exact Hv | apply H; exact Hrc].
      * intros H rc Hrc. apply H. right. exact Hrc.
    + exists false. split; [reflexivity|]. split; [discriminate|].
      intros H. destruct (H (r, c) (or_introl eq_refl)) as [m Hm].
      pose proof (holds_unique b (r, c) _ _ Hv Hm). discriminate.
Qed.

Lemma candidates_spec (b : Board) (lines : list (list (Z * Z))) :
  wf_board b -> (forall line, In line lines -> In line win_lines) ->
  exists cands,
    candidates b lines = Some cands /\
    forall cells vals,
      In (cells, vals) cands <->
      In cells lines /\
      exists q0 q1 q2,
        cells = [q0; q1; q2] /\
        holds b q0 (fst (fst vals)) /\ holds b q1 (snd (fst vals)) /\
        holds b q2 (snd vals).
Proof.
  intros Hb. induction lines as [|line lines IH]; intros Hsub.
  - exists []. split; [reflexivity|]. intros cells vals. cbn. tauto.
  - destruct (win_line_shape line (Hsub _ (or_introl eq_refl)))
      as (q0 & q1 & q2 & -> & I0 & I1 & I2).
    destruct (get_total b q0 Hb I0) as [x Hx].
    destruct (get_total b q1 Hb I1) as [y Hy].
    destruct (get_total b q2 Hb I2) as [z Hz].
    destruct IH as (cands & Hc & Hspec);
      [intros l Hl; apply Hsub; right; exact Hl|].
    exists (([q0; q1; q2], (x, y, z)) :: cands). split.
    + cbn [candidates]. unfold candidate.
      destruct q0 as [r0 c0], q1 as [r1 c1], q2 as [r2 c2].
      unfold holds in Hx, Hy, Hz. cbn [fst snd] in Hx, Hy, Hz.
      rewrite Hx, Hy, Hz. cbn [bind]. rewrite Hc. reflexivity.
    + intros cells vals. cbn [In]. rewrite Hspec. split.
      * intros [H|[H1 H2]].
        -- injection H as <- <-. split; [left; reflexivity|].
           exists q0, q1, q2. repeat split; assumption.
        -- split; [right; exact H1 | exact H2].
      * intros [[<-|H1] H2]; [|right; split; assumption].
        left. destruct H2 as (p0 & p1 & p2 & E & H0 & H1 & H2).
        injection E as <- <- <-. destruct vals as [[v0 v1] v2].
        cbn [fst snd] in *.
        rewrite (holds_unique b q0 _ _ Hx H0), (holds_unique b q1 _ _ Hy H1),
                (holds_unique b q2 _ _ Hz H2). reflexivity.
Qed.

(** [check_winner] does not raise on a board of the right shape. *)
Lemma check_winner_total (b : Board) :
  wf_board b -> exists w line, check_winner b = Some (w, line).
Proof.
  intros Hb. unfold check_winner.
  destruct (candidates_spec b win_lines Hb (fun _ H => H)) as (cands & Hc & _).
  rewrite Hc. cbn [bind].
  destruct (find (fun cand => complete (snd cand)) cands)
    as [[cells [[v0 v1] v2]]|]; [eauto|].
  destruct (all_filled_spec b all_cells Hb) as (f & Hf & _).
  { intros rc. apply in_board_all_cells. }
  rewrite Hf. cbn [bind]. destruct f; eauto.
Qed.

(** On a board of three rows of three cells [check_winner] does not raise
    and returns one of three answers: a mark with a line of [win_lines] whose
    three cells hold that mark; or ["DRAW"] with no line, when no mark owns
    a line and no cell is empty; or [None] with no line, when no mark owns a
    line and some cell is empty. *)
Theorem check_winner_sound_and_complete (b : Board) :
  wf_board b ->
  (exists m cells,
      check_winner b = Some (Some (Won m), Some cells) /\
      In cells win_lines /\
      forall rc, In rc cells -> holds b rc (Some m)) \/
  (check_winner b = Some (Some DRAW, None) /\
   (forall m, ~ wins b m) /\ full b) \/
  (check_winner b = Some (None, None) /\
   (forall m, ~ wins b m) /\ ~ full b).
Proof.
  intros Hb. unfold check_winner.
  destruct (candidates_spec b win_lines Hb (fun _ H => H))
    as (cands & Hc & Hspec).
  rewrite Hc. cbn [bind].
  destruct (find (fun cand => complete (snd cand)) cands)
    as [[cells [[v0 v1] v2]]|] eqn:F.
  - left. apply find_some in F. destruct F as [Hin Hcomp].
    cbn [snd] in Hcomp. apply complete_true in Hcomp.
    destruct Hcomp as (m & -> & -> & ->).
    apply Hspec in Hin.
    destruct Hin as (Hl & q0 & q1 & q2 & -> & H0 & H1 & H2).
    cbn [fst snd] in *.
    exists m, [q0; q1; q2]. split; [reflexivity|]. split; [exact Hl|].
    intros rc [<-|[<-|[<-|[]]]]; assumption.
  - assert (Hnone : forall m, ~ wins b m).
    { intros m (line & Hl & Hh).
      destruct (win_line_shape line Hl) as (q0 & q1 & q2 & -> & _).
      assert (Hin : In ([q0; q1; q2], (Some m, Some m, Some m)) cands).
      { apply Hspec. split; [exact Hl|]. exists q0, q1, q2.
        cbn [fst snd]. repeat split; apply Hh; cbn; tauto. }
      pose proof (find_none _ _ F _ Hin) as Hf. cbn in Hf.
      destruct m; discriminate. }
    destruct (all_filled_spec b all_cells Hb) as (f & Hf & Hiff).
    { intros rc. apply in_board_all_cells. }
    rewrite Hf. cbn [bind]. destruct f.
    + right. left. split; [reflexivity|]. split; [exact Hnone|].
      intros rc Hrc. apply Hiff; [reflexivity|].
      apply in_board_all_cells. exact Hrc.
    + right. right. split; [reflexivity|]. split; [exact Hnone|].
      intros Hfull. assert (false = true); [|discriminate].
      apply Hiff. intros rc Hrc. apply Hfull.
      apply in_board_all_cells. exact Hrc.
Qed.

Lemma check_winner_sound_and_complete_witness :
  check_winner [[Some X; Some O; None];
                [Some O; Some X; None];
                [None; None; Some X]] =
  Some (Some (Won X), Some [(0, 0); (1, 1); (2, 2)]).
Proof.
  destruct (check_winner_sound_and_complete
              [[Some X; Some O; None];
               [Some O; Some X; None];
               [None; None; Some X]])
    as [(m & cells & H & _)|[(H & _)|(H & _)]].
  - split; [reflexivity | repeat constructor].
  - rewrite H. vm_compute in H. symmetry. exact H.
  - vm_compute in H. discriminate.
  - vm_compute in H. discriminate.
Defined.

(** ** The cursor *)

(** [move_cursor] keeps the cursor on the board whatever [dx] and [dy] are;
    each coordinate moves by at most one cell and stays where it is at the
    border it would cross; a column step leaves the row alone when [dy] is
    0 and a row step leaves the column alone when [dx] is 0; nothing but the
    cursor changes; and so any sequence of calls keeps the cursor on the
    board. *)
Theorem move_cursor_stays_on_board (g : TicTacToeGame) (dx dy : Z) :
  in_board (cursor g) ->
  let g' := move_cursor g dx dy in
  in_board (cursor g') /\
  (Z.abs (fst (cursor g') - fst (cursor g)) <= 1 /\
   Z.abs (snd (cursor g') - snd (cursor g)) <= 1) /\
  (dx = 1 -> snd (cursor g) = 2 -> snd (cursor g') = 2) /\
  (dx = -1 -> snd (cursor g) = 0 -> snd (cursor g') = 0) /\
  (dy = -1 -> fst (cursor g) = 2 -> fst (cursor g') = 2) /\
  (dy = 1 -> fst (cursor g) = 0 -> fst (cursor g') = 0) /\
  (dy = 0 -> fst (cursor g') = fst (cursor g)) /\
  (dx = 0 -> snd (cursor g') = snd (cursor g)) /\
  (board g' = board g /\ winner g' = winner g /\ win_line g' = win_line g /\
   difficulty g' = difficulty g) /\
  forall steps : list (Z * Z),
    in_board (cursor (fold_left (fun h m => move_cursor h (fst m) (snd m))
                                steps g)).
Proof.
  assert (Hstep : forall h x y,
            in_board (cursor h) -> in_board (cursor (move_cursor h x y))).
  { intros h x y. unfold move_cursor, in_board.
    destruct (cursor h) as [row col]. cbn [cursor fst snd].
    destruct (x =? -1), (x =? 1), (y =? -1), (y =? 1); lia. }
  intros Hin. cbv zeta. split; [apply Hstep; exact Hin|].
  split; [|split; [|split; [|split; [|split; [|split; [|split; [|split]]]]]]].
  - unfold move_cursor, in_board in *.
    destruct (cursor g) as [row col]. cbn [cursor fst snd] in *.
    destruct (dx =? -1), (dx =? 1), (dy =? -1), (dy =? 1); lia.
  - intros -> H. unfold move_cursor. destruct (cursor g) as [row col].
    cbn in *. subst col. reflexivity.
  - intros -> H. unfold move_cursor. destruct (cursor g) as [row col].
    cbn in *. subst col. reflexivity.
  - intros -> H. unfold move_cursor. destruct (cursor g) as [row col].
    cbn in *. subst row. reflexivity.
  - intros -> H. unfold move_cursor. destruct (cursor g) as [row col].
    cbn in *. subst row. reflexivity.
  - intros ->. unfold move_cursor. destruct (cursor g) as [row col].
    reflexivity.
  - intros ->. unfold move_cursor. destruct (cursor g) as [row col].
    reflexivity.
  - unfold move_cursor. destruct (cursor g) as [row col]. repeat split.
  - intros steps. revert g Hin.
    induction steps as [|m steps IH]; intros g Hin; [exact Hin|].
    cbn [fold_left]. apply IH. apply Hstep. exact Hin.
Qed.

Lemma move_cursor_stays_on_board_witness :
  cursor (move_cursor (init Difficulty.HARD) 1 0) = (1, 2) /\
  in_board (cursor (move_cursor (move_cursor (init Difficulty.HARD) 1 0) 1 0)).
Proof.
  split; [reflexivity|].
  destruct (move_cursor_stays_on_board
              (move_cursor (init Difficulty.HARD) 1 0) 1 0) as [H _].
  - unfold in_board. cbn. lia.
  - exact H.
Defined.

(** ** Placing a mark *)

Lemma placed_keeps (b b' : Board) (rc rc' : Z * Z) (p m : Mark) :
  wf_board b -> placed b rc p b' -> in_board rc' ->
  holds b rc' (Some m) -> holds b' rc' (Some m).
Proof.
  intros Hb (Hin & Hnone & Hset) Hin' Hm.
  destruct (set_spec b rc (Some p) Hb Hin) as (b2 & Hs & _ & _ & Hother).
  assert (b2 = b') by congruence. subst b2.
  unfold holds. rewrite Hother; [exact Hm | exact Hin'|].
  intros ->. pose proof (holds_unique b rc _ _ Hnone Hm). discriminate.
Qed.

Lemma placed_wf (b b' : Board) (rc : Z * Z) (p : Mark) :
  wf_board b -> placed b rc p b' -> wf_board b' /\ holds b' rc (Some p).
Proof.
  intros Hb (Hin & _ & Hset).
  destruct (set_spec b rc (Some p) Hb Hin) as (b2 & Hs & Hwf & Hh & _).
  assert (b2 = b') by congruence. subst b2. split; assumption.
Qed.

Lemma place_x_cases (g : TicTacToeGame) :
  wf_game g ->
  (exists m, holds (board g) (cursor g) (Some m) /\
             place_x g = Some (g, false)) \/
  (exists b' w line,
      placed (board g) (cursor g) X b' /\
      check_winner b' = Some (w, line) /\
      place_x g =
        Some ({| difficulty := difficulty g; board := b'; cursor := cursor g;
                 winner := w; win_line := line |}, true)).
Proof.
  intros [Hb Hc]. unfold place_x.
  destruct (get_total (board g) (cursor g) Hb Hc) as [v Hv].
  pose proof Hv as Hv'. unfold holds in Hv'.
  destruct (cursor g) as [r c] eqn:Ec. cbn [fst snd] in Hv'.
  rewrite Hv'. cbn [bind]. destruct v as [m|]; cbn [is_none negb].
  - left. exists m. split; [exact Hv | reflexivity].
  - right.
    destruct (set_spec (board g) (r, c) (Some X) Hb Hc)
      as (b' & Hs & Hwf & _).
    cbn [fst snd] in Hs. rewrite Hs. cbn [bind].
    destruct (check_winner_total b' Hwf) as (w & line & Hcw).
    rewrite Hcw. cbn [bind].
    exists b', w, line. split; [|split; [exact Hcw | reflexivity]].
    split; [exact Hc|]. split; [exact Hv | exact Hs].
Qed.

(** On a game with a board of three rows of three cells and the cursor on
    it, [place_x] does not raise.  If the cell under the cursor holds a mark
    it returns false and the game is unchanged.  Otherwise it returns true,
    the cell under the cursor holds ["X"], every other cell, the cursor and
    the difficulty are as before, and the winner and the win line are those
    [check_winner] gives for the new board. *)
Theorem place_x_fills_only_an_empty_cell (g : TicTacToeGame) :
  wf_game g ->
  exists g' ok,
    place_x g = Some (g', ok) /\ wf_game g' /\
    cursor g' = cursor g /\ difficulty g' = difficulty g /\
    (ok = false <-> exists m, holds (board g) (cursor g) (Some m)) /\
    (ok = false -> g' = g) /\
    (ok = true ->
     holds (board g) (cursor g) None /\
     holds (board g') (cursor g) (Some X) /\
     (forall rc, in_board rc -> rc <> cursor g ->
                 get (board g') (fst rc) (snd rc) =
                 get (board g) (fst rc) (snd rc)) /\
     check_winner (board g') = Some (winner g', win_line g')).
Proof.
  intros Hg. pose proof Hg as [Hb Hc].
  destruct (place_x_cases g Hg)
    as [(m & Hm & Hp)|(b' & w & line & Hpl & Hcw & Hp)].
  - exists g, false. split; [exact Hp|]. split; [exact Hg|].
    split; [reflexivity|]. split; [reflexivity|].
    split; [split; [intros _; exists m; exact Hm | reflexivity]|].
    split; [reflexivity | discriminate].
  - eexists. exists true. split; [exact Hp|].
    destruct (placed_wf _ _ _ _ Hb Hpl) as [Hwf Hx].
    destruct Hpl as (_ & Hnone & Hset).
    destruct (set_spec (board g) (cursor g) (Some X) Hb Hc)
      as (b2 & Hs & _ & _ & Hother).
    assert (b2 = b') by congruence. subst b2.
    cbn [board cursor difficulty winner win_line].
    split; [split; assumption|].
    split; [reflexivity|]. split; [reflexivity|].
    split; [split; [discriminate|]|].
    { intros (m & Hm).
      pose proof (holds_unique _ _ _ _ Hnone Hm). discriminate. }
    split; [discriminate|]. intros _.
    split; [exact Hnone|]. split; [exact Hx|]. split; [exact Hother | exact Hcw].
Qed.

Lemma place_x_fills_only_an_empty_cell_witness :
  exists g', place_x (init Difficulty.HARD) = Some (g', true) /\
             holds (board g') (1, 1) (Some X).
Proof.
  destruct (place_x_fills_only_an_empty_cell (init Difficulty.HARD))
    as (g' & ok & Hp & _ & _ & _ & _ & _ & Ht).
  - split; [split; [reflexivity | repeat constructor]|].
    unfold in_board. cbn. lia.
  - assert (Hok : ok = true).
    { vm_compute in Hp. injection Hp as _ <-. reflexivity. }
    subst ok. exists g'. split; [exact Hp|].
    destruct (Ht eq_refl) as (_ & Hx & _). exact Hx.
Defined.

(** ** The opponent *)

(** A probing loop over empty cells of the board leaves the board as it
    was and returns the first cell that makes [p] win, if there is one. *)
Lemma probe_spec (b : Board) (p : Mark) (cells : list (Z * Z)) :
  wf_board b ->
  (forall rc, In rc cells -> in_board rc /\ holds b rc None) ->
  exists found,
    probe b p cells = Some (b, found) /\
    (forall rc, found = Some rc ->
                In rc cells /\ exists b', placed b rc p b' /\ wins b' p) /\
    (found = None ->
     forall rc b', In rc cells -> placed b rc p b' -> ~ wins b' p).
Proof.
  intros Hb. induction cells as [|[r c] cells IH]; intros Hall.
  - exists None. split; [reflexivity|].
    split; [discriminate | intros _ rc b' []].
  - destruct (Hall (r, c) (or_introl eq_refl)) as [Hin Hnone].
    destruct (set_spec b (r, c) (Some p) Hb Hin) as (b1 & Hs & Hwf & _).
    destruct (is_win_spec b1 p Hwf) as (w & Hw & Hiff).
    pose proof (set_restore b b1 (r, c) None (Some p) Hb Hin Hnone Hs) as Hr.
    cbn [fst snd] in Hs, Hr.
    cbn [probe]. rewrite Hs. cbn [bind]. rewrite Hw. cbn [bind].
    rewrite Hr. cbn [bind]. destruct w.
    + exists (Some (r, c)). split; [reflexivity|]. split; [|discriminate].
      intros rc E. injection E as <-. split; [left; reflexivity|].
      exists b1. split; [|apply Hiff; reflexivity].
      split; [exact Hin|]. split; [exact Hnone | exact Hs].
    + destruct IH as (found & Hp & Hsome & Hnone');
        [intros rc H; apply Hall; right; exact H|].
      exists found. split; [exact Hp|]. split.
      * intros rc E. destruct (Hsome rc E) as [H1 H2].
        split; [right; exact H1 | exact H2].
      * intros E rc b' [<-|Hrc] Hpl.
        -- destruct Hpl as (_ & _ & Hs'). cbn [fst snd] in Hs'.
           assert (b' = b1) by congruence. subst b'.
           intros Hwin. apply Hiff in Hwin. discriminate.
        -- apply (Hnone' E rc b' Hrc Hpl).
Qed.

Lemma probe_empties (b : Board) (p : Mark) :
  wf_board b ->
  exists es found,
    empties b = Some es /\ probe b p es = Some (b, found) /\
    (forall rc, found = Some rc -> exists b', placed b rc p b' /\ wins b' p) /\
    (found = None -> ~ can_win b p).
Proof.
  intros Hb. destruct (empties_spec b Hb) as (es & He & Hes).
  destruct (probe_spec b p es Hb) as (found & Hp & Hsome & Hnone).
  - intros rc H. apply Hes. exact H.
  - exists es, found. split; [exact He|]. split; [exact Hp|]. split.
    + intros rc E. apply (Hsome rc E).
    + intros E (rc & b' & Hpl & Hw).
      apply (Hnone E rc b'); [|exact Hpl | exact Hw].
      apply Hes. destruct Hpl as (H1 & H2 & _). split; assumption.
Qed.

Lemma corners_edges_on_board (rc : Z * Z) :
  In rc corners \/ In rc edges -> in_board rc.
Proof.
  unfold in_board. cbn.
  intros [H|H];
    repeat (destruct H as [<-|H]; [cbn; lia|]); contradiction.
Qed.

Lemma board_is_centre_corners_edges (rc : Z * Z) :
  in_board rc -> rc = (1, 1) \/ In rc corners \/ In rc edges.
Proof.
  destruct rc as [r c]. intros H. cell_cases r c H; cbn; tauto.
Qed.

(** What [ai_move_smart] returns, rule by rule, and that it leaves the
    board as it was. *)
Lemma ai_move_smart_cases (b : Board) (ai human : Mark) (rnd : nat) :
  wf_board b ->
  exists mv,
    ai_move_smart b ai human rnd = Some (b, mv) /\
    ((exists rc b', mv = Some rc /\ placed b rc ai b' /\ wins b' ai) \/
     (~ can_win b ai /\
      exists rc b', mv = Some rc /\ placed b rc human b' /\ wins b' human) \/
     (~ can_win b ai /\ ~ can_win b human /\
      holds b (1, 1) None /\ mv = Some (1, 1)) \/
     (~ can_win b ai /\ ~ can_win b human /\ ~ holds b (1, 1) None /\
      exists rc, mv = Some rc /\ In rc corners /\ holds b rc None) \/
     (~ can_win b ai /\ ~ can_win b human /\ ~ holds b (1, 1) None /\
      (forall rc, In rc corners -> ~ holds b rc None) /\
      exists rc, mv = Some rc /\ In rc edges /\ holds b rc None) \/
     (~ can_win b ai /\ ~ can_win b human /\ ~ holds b (1, 1) None /\
      (forall rc, In rc corners -> ~ holds b rc None) /\
      (forall rc, In rc edges -> ~ holds b rc None) /\ mv = None)).
Proof.
  intros Hb. unfold ai_move_smart.
  destruct (probe_empties b ai Hb) as (es & f1 & He & Hp1 & Hs1 & Hn1).
  rewrite He. cbn [bind]. rewrite Hp1. cbn [bind].
  destruct f1 as [rc1|].
  { exists (Some rc1). split; [reflexivity|]. left.
    destruct (Hs1 rc1 eq_refl) as (b' & Hpl & Hw).
    exists rc1, b'. repeat split; try assumption; apply Hpl. }
  specialize (Hn1 eq_refl).
  destruct (probe_empties b human Hb) as (es' & f2 & He' & Hp2 & Hs2 & Hn2).
  assert (es' = es) by congruence. subst es'.
  rewrite He. cbn [bind]. rewrite Hp2. cbn [bind].
  destruct f2 as [rc2|].
  { exists (Some rc2). split; [reflexivity|]. right. left.
    split; [exact Hn1|].
    destruct (Hs2 rc2 eq_refl) as (b' & Hpl & Hw).
    exists rc2, b'. repeat split; try assumption; apply Hpl. }
  specialize (Hn2 eq_refl).
  assert (Hc11 : in_board (1, 1)) by (unfold in_board; cbn; lia).
  destruct (get_total b (1, 1) Hb Hc11) as [v Hv].
  pose proof Hv as Hv'. unfold holds in Hv'. cbn [fst snd] in Hv'.
  rewrite Hv'. cbn [bind]. destruct v as [m|]; cbn [is_none].
  2:{ exists (Some (1, 1)). split; [reflexivity|]. right. right. left.
      repeat split; assumption. }
  assert (Hnc : ~ holds b (1, 1) None).
  { intros H. pose proof (holds_unique _ _ _ _ Hv H). discriminate. }
  destruct (open_of_spec b corners Hb) as (oc & Hoc & Hocs).
  { intros rc H. apply corners_edges_on_board. left. exact H. }
  rewrite Hoc. cbn [bind]. destruct oc as [|c0 oc].
  2:{ destruct (choice_spec _ rnd (c0 :: oc)) as (x & Hx & Hin);
        [discriminate|].
      rewrite Hx. cbn [bind]. exists (Some x). split; [reflexivity|].
      right. right. right. left.
      apply Hocs in Hin. destruct Hin as [Hi1 Hi2].
      split; [exact Hn1|]. split; [exact Hn2|]. split; [exact Hnc|].
      exists x. repeat split; assumption. }
  assert (Hnoc : forall rc, In rc corners -> ~ holds b rc None).
  { intros rc Hin Hh. apply (Hocs rc). split; assumption. }
  destruct (open_of_spec b edges Hb) as (oe & Hoe & Hoes).
  { intros rc H. apply corners_edges_on_board. right. exact H. }
  rewrite Hoe. cbn [bind]. destruct oe as [|e0 oe].
  2:{ destruct (choice_spec _ rnd (e0 :: oe)) as (x & Hx & Hin);
        [discriminate|].
      rewrite Hx. cbn [bind]. exists (Some x). split; [reflexivity|].
      right. right. right. right. left.
      apply Hoes in Hin. destruct Hin as [Hi1 Hi2].
      split; [exact Hn1|]. split; [exact Hn2|]. split; [exact Hnc|].
      split; [exact Hnoc|]. exists x. repeat split; assumption. }
  exists None. split; [reflexivity|]. right. right. right. right. right.
  split; [exact Hn1|]. split; [exact Hn2|]. split; [exact Hnc|].
  split; [exact Hnoc|]. split; [|reflexivity].
  intros rc Hin Hh. apply (Hoes rc). split; assumption.
Qed.

(** The safety of [ai_move_smart]: on a board of three rows of three cells
    and for every draw of the generator it does not raise, it leaves the
    board exactly as it was although it writes to it while probing, the
    move it returns is an empty cell of the board, and it returns no move
    exactly when the board is full. *)
Theorem ai_move_smart_picks_an_empty_cell
    (b : Board) (ai human : Mark) (rnd : nat) :
  wf_board b ->
  exists mv,
    ai_move_smart b ai human rnd = Some (b, mv) /\
    (forall rc, mv = Some rc -> in_board rc /\ holds b rc None) /\
    (mv = None <-> full b).
Proof.
  intros Hb.
  destruct (ai_move_smart_cases b ai human rnd Hb) as (mv & Hmv & Hcases).
  exists mv. split; [exact Hmv|].
  assert (Hsafe : forall rc, mv = Some rc -> in_board rc /\ holds b rc None).
  { intros rc E.
    destruct Hcases
      as [(rc' & b' & E' & Hpl & _)
         |[(_ & rc' & b' & E' & Hpl & _)
          |[(_ & _ & Hh & E')
           |[(_ & _ & _ & rc' & E' & Hin & Hh)
            |[(_ & _ & _ & _ & rc' & E' & Hin & Hh)
             |(_ & _ & _ & _ & _ & E')]]]]];
      rewrite E' in E; try discriminate; injection E as <-.
    - destruct Hpl as (H1 & H2 & _). split; assumption.
    - destruct Hpl as (H1 & H2 & _). split; assumption.
    - split; [unfold in_board; cbn; lia | exact Hh].
    - split; [apply corners_edges_on_board; left; exact Hin | exact Hh].
    - split; [apply corners_edges_on_board; right; exact Hin | exact Hh]. }
  split; [exact Hsafe|]. split.
  - intros ->.
    destruct Hcases
      as [(rc' & b' & E' & _)
         |[(_ & rc' & b' & E' & _)
          |[(_ & _ & _ & E')
           |[(_ & _ & _ & rc' & E' & _)
            |[(_ & _ & _ & _ & rc' & E' & _)
             |(_ & _ & Hc & Hco & Hed & _)]]]]]; try discriminate.
    intros rc Hin. destruct (get_total b rc Hb Hin) as [[m|] Hv].
    + exists m. exact Hv.
    + exfalso.
      destruct (board_is_centre_corners_edges rc Hin) as [->|[H|H]].
      * apply Hc. exact Hv.
      * apply (Hco rc H Hv).
      * apply (Hed rc H Hv).
  - intros Hfull. destruct mv as [rc|]; [|reflexivity].
    destruct (Hsafe rc eq_refl) as [Hin Hnone].
    destruct (Hfull rc Hin) as [m Hm].
    pose proof (holds_unique _ _ _ _ Hnone Hm). discriminate.
Qed.

Lemma ai_move_smart_picks_an_empty_cell_witness :
  exists mv,
    ai_move_smart [[Some X; None; None];
                   [None; Some O; None];
                   [None; None; Some X]] O X 7 =
    Some ([[Some X; None; None];
           [None; Some O; None];
           [None; None; Some X]], mv).
Proof.
  destruct (ai_move_smart_picks_an_empty_cell
              [[Some X; None; None];
               [None; Some O; None];
               [None; None; Some X]] O X 7) as (mv & H & _).
  - split; [reflexivity | repeat constructor].
  - exists mv. exact H.
Defined.

(** The strategy of [ai_move_smart], in the order of its rules: if the AI
    has an empty cell that completes a line of its own, the move returned is
    such a cell; otherwise, if the opponent has an empty cell that completes
    a line, the move returned is such a cell, which blocks it; otherwise, if
    the centre is empty, the move is the centre; otherwise the move is an
    empty corner if there is one, and else an empty edge. *)
Theorem ai_move_smart_wins_then_blocks
    (b : Board) (ai human : Mark) (rnd : nat) :
  wf_board b ->
  exists mv,
    ai_move_smart b ai human rnd = Some (b, mv) /\
    (can_win b ai ->
     exists rc b', mv = Some rc /\ placed b rc ai b' /\ wins b' ai) /\
    (~ can_win b ai -> can_win b human ->
     exists rc b', mv = Some rc /\ placed b rc human b' /\ wins b' human) /\
    (~ can_win b ai -> ~ can_win b human -> holds b (1, 1) None ->
     mv = Some (1, 1)) /\
    (~ can_win b ai -> ~ can_win b human -> ~ holds b (1, 1) None ->
     (exists rc, In rc corners /\ holds b rc None) ->
     exists rc, mv = Some rc /\ In rc corners /\ holds b rc None) /\
    (~ can_win b ai -> ~ can_win b human -> ~ holds b (1, 1) None ->
     (forall rc, In rc corners -> ~ holds b rc None) ->
     (exists rc, In rc edges /\ holds b rc None) ->
     exists rc, mv = Some rc /\ In rc edges /\ holds b rc None).
Proof.
  intros Hb.
  destruct (ai_move_smart_cases b ai human rnd Hb) as (mv & Hmv & Hcases).
  exists mv. split; [exact Hmv|].
  destruct Hcases
    as [(rc & b' & E & Hpl & Hw)
       |[(Hna & rc & b' & E & Hpl & Hw)
        |[(Hna & Hnh & Hc & E)
         |[(Hna & Hnh & Hc & rc & E & Hin & Hh)
          |[(Hna & Hnh & Hc & Hco & rc & E & Hin & Hh)
           |(Hna & Hnh & Hc & Hco & Hed & E)]]]]].
  - assert (Hcan : can_win b ai) by (exists rc, b'; split; assumption).
    split; [intros _; exists rc, b'; auto|].
    repeat split; intros; contradiction.
  - assert (Hcan : can_win b human) by (exists rc, b'; split; assumption).
    split; [intros; contradiction|].
    split; [intros _ _; exists rc, b'; auto|].
    repeat split; intros; contradiction.
  - split; [intros; contradiction|]. split; [intros; contradiction|].
    split; [intros; exact E|]. split; intros; contradiction.
  - split; [intros; contradiction|]. split; [intros; contradiction|].
    split; [intros; contradiction|].
    split; [intros; exists rc; auto|].
    intros _ _ _ Hnoc _. exfalso. apply (Hnoc rc Hin Hh).
  - split; [intros; contradiction|]. split; [intros; contradiction|].
    split; [intros; contradiction|].
    split; [intros _ _ _ (rc' & Hin' & Hh'); exfalso; apply (Hco rc' Hin' Hh')|].
    intros. exists rc. auto.
  - split; [intros; contradiction|]. split; [intros; contradiction|].
    split; [intros; contradiction|].
    split; [intros _ _ _ (rc' & Hin' & Hh'); exfalso; apply (Hco rc' Hin' Hh')|].
    intros _ _ _ _ (rc' & Hin' & Hh'). exfalso. apply (Hed rc' Hin' Hh').
Qed.

Lemma ai_move_smart_wins_then_blocks_witness :
  exists b',
    ai_move_smart [[Some O; Some O; None];
                   [Some X; Some X; None];
                   [None; None; None]] O X 0 =
    Some ([[Some O; Some O; None];
           [Some X; Some X; None];
           [None; None; None]], Some (0, 2)) /\
    wins b' O.
Proof.
  destruct (ai_move_smart_wins_then_blocks
              [[Some O; Some O; None];
               [Some X; Some X; None];
               [None; None; None]] O X 0) as (mv & Hmv & Hwin & _).
  - split; [reflexivity | repeat constructor].
  - destruct Hwin as (rc & b' & E & _ & Hw).
    + exists (0, 2), [[Some O; Some O; Some O];
                      [Some X; Some X; None];
                      [None; None; None]].
      split; [split; [unfold in_board; cbn; lia | split; reflexivity]|].
      exists [(0, 0); (0, 1); (0, 2)]. split; [cbn; tauto|].
      intros q [<-|[<-|[<-|[]]]]; reflexivity.
    + exists b'. split; [|exact Hw].
      rewrite Hmv. vm_compute in Hmv. injection Hmv as <-. reflexivity.
Defined.

Lemma ai_move_easy_cases (b : Board) (rnd : nat) :
  wf_board b ->
  exists mv,
    ai_move_easy b rnd = Some mv /\
    (forall rc, mv = Some rc -> in_board rc /\ holds b rc None) /\
    (mv = None <-> full b).
Proof.
  intros Hb. unfold ai_move_easy.
  destruct (empties_spec b Hb) as (es & He & Hes).
  rewrite He. cbn [bind]. destruct es as [|e es].
  - exists None. split; [reflexivity|]. split; [discriminate|].
    split; [|reflexivity]. intros _ rc Hin.
    destruct (get_total b rc Hb Hin) as [[m|] Hv]; [exists m; exact Hv|].
    exfalso. apply (proj2 (Hes rc)). split; assumption.
  - destruct (choice_spec _ rnd (e :: es)) as (x & Hx & Hin); [discriminate|].
    rewrite Hx. cbn [bind]. exists (Some x). split; [reflexivity|].
    apply Hes in Hin. split.
    + intros rc E. injection E as <-. exact Hin.
    + split; [discriminate|]. intros Hfull. exfalso.
      destruct Hin as [H1 H2]. destruct (Hfull x H1) as [m Hm].
      pose proof (holds_unique _ _ _ _ H2 Hm). discriminate.
Qed.

(** [ai_move_easy], for every draw of the generator, does not raise on a
    board of three rows of three cells, returns an empty cell of the board,
    and returns no move exactly when the board is full; and every empty cell
    of the board is the move returned for some draw. *)
Theorem ai_move_easy_picks_an_empty_cell (b : Board) (rnd : nat) :
  wf_board b ->
  (exists mv,
      ai_move_easy b rnd = Some mv /\
      (forall rc, mv = Some rc -> in_board rc /\ holds b rc None) /\
      (mv = None <-> full b)) /\
  (forall rc, in_board rc -> holds b rc None ->
              exists draw, ai_move_easy b draw = Some (Some rc)).
Proof.
  intros Hb. split; [apply ai_move_easy_cases; exact Hb|].
  intros rc Hin Hnone. unfold ai_move_easy.
  destruct (empties_spec b Hb) as (es & He & Hes).
  rewrite He. cbn [bind].
  assert (Hrc : In rc es) by (apply Hes; split; assumption).
  destruct (In_nth_error es rc Hrc) as [n Hn].
  assert (Hlt : (n < length es)%nat).
  { apply nth_error_Some. rewrite Hn. discriminate. }
  exists n. destruct es as [|e es]; [contradiction|].
  unfold PyList.choice. rewrite (Nat.mod_small n _ Hlt), Hn. reflexivity.
Qed.

Lemma ai_move_easy_picks_an_empty_cell_witness :
  exists mv, ai_move_easy empty_board 13 = Some mv.
Proof.
  destruct (ai_move_easy_picks_an_empty_cell empty_board 13)
    as [(mv & H & _) _].
  - split; [reflexivity | repeat constructor].
  - exists mv. exact H.
Defined.

Lemma maybe_ai_turn_cases (g : TicTacToeGame) (rnd : nat) :
  wf_game g ->
  (exists o, winner g = Some o /\ maybe_ai_turn g rnd = Some g) \/
  (winner g = None /\
   exists b' w line,
     maybe_ai_turn g rnd =
       Some {| difficulty := difficulty g; board := b'; cursor := cursor g;
               winner := w; win_line := line |} /\
     check_winner b' = Some (w, line) /\ wf_board b' /\
     ((full (board g) /\ b' = board g) \/
      exists rc, placed (board g) rc O b')).
Proof.
  intros [Hb Hc]. unfold maybe_ai_turn.
  destruct (winner g) as [o|] eqn:Ew.
  - left. exists o. split; reflexivity.
  - right. split; [reflexivity|].
    assert (Hmv : exists mv,
               (if String.eqb (difficulty g) Difficulty.EASY
                then mv <- ai_move_easy (board g) rnd ;; Some (board g, mv)
                else ai_move_smart (board g) O X rnd) = Some (board g, mv) /\
               (forall rc, mv = Some rc ->
                           in_board rc /\ holds (board g) rc None) /\
               (mv = None <-> full (board g))).
    { destruct (String.eqb (difficulty g) Difficulty.EASY).
      - destruct (ai_move_easy_cases (board g) rnd Hb) as (mv & H & Hs).
        exists mv. rewrite H. split; [reflexivity | exact Hs].
      - destruct (ai_move_smart_cases (board g) O X rnd Hb) as (mv & H & Hcs).
        exists mv. split; [exact H|].
        assert (Hsafe : forall rc, mv = Some rc ->
                                   in_board rc /\ holds (board g) rc None).
        { intros rc E.
          destruct Hcs
            as [(rc' & b' & E' & Hpl & _)
               |[(_ & rc' & b' & E' & Hpl & _)
                |[(_ & _ & Hh & E')
                 |[(_ & _ & _ & rc' & E' & Hin & Hh)
                  |[(_ & _ & _ & _ & rc' & E' & Hin & Hh)
                   |(_ & _ & _ & _ & _ & E')]]]]];
            rewrite E' in E; try discriminate; injection E as <-.
          - destruct Hpl as (H1 & H2 & _). split; assumption.
          - destruct Hpl as (H1 & H2 & _). split; assumption.
          - split; [unfold in_board; cbn; lia | exact Hh].
          - split; [apply corners_edges_on_board; left; exact Hin | exact Hh].
          - split; [apply corners_edges_on_board; right; exact Hin | exact Hh]. }
        split; [exact Hsafe|]. split.
        + intros ->.
          destruct Hcs
            as [(rc' & b' & E' & _)
               |[(_ & rc' & b' & E' & _)
                |[(_ & _ & _ & E')
                 |[(_ & _ & _ & rc' & E' & _)
                  |[(_ & _ & _ & _ & rc' & E' & _)
                   |(_ & _ & Hce & Hco & Hed & _)]]]]]; try discriminate.
          intros rc Hin. destruct (get_total (board g) rc Hb Hin) as [[m|] Hv].
          * exists m. exact Hv.
          * exfalso.
            destruct (board_is_centre_corners_edges rc Hin) as [->|[Hi|Hi]].
            -- apply Hce. exact Hv.
            -- apply (Hco rc Hi Hv).
            -- apply (Hed rc Hi Hv).
        + intros Hfull. destruct mv as [rc|]; [|reflexivity].
          destruct (Hsafe rc eq_refl) as [Hin Hnone].
          destruct (Hfull rc Hin) as [m Hm].
          pose proof (holds_unique _ _ _ _ Hnone Hm). discriminate. }
    destruct Hmv as (mv & Hmv & Hsafe & Hfull). rewrite Hmv. cbn [bind].
    destruct mv as [[r c]|].
    + destruct (Hsafe (r, c) eq_refl) as [Hin Hnone].
      destruct (set_spec (board g) (r, c) (Some O) Hb Hin)
        as (b' & Hs & Hwf & _).
      cbn [fst snd] in Hs. rewrite Hs. cbn [bind].
      destruct (check_winner_total b' Hwf) as (w & line & Hcw).
      rewrite Hcw. cbn [bind]. exists b', w, line.
      split; [reflexivity|]. split; [exact Hcw|]. split; [exact Hwf|].
      right. exists (r, c). split; [exact Hin|]. split; [exact Hnone | exact Hs].
    + cbn [bind].
      destruct (check_winner_total (board g) Hb) as (w & line & Hcw).
      rewrite Hcw. cbn [bind]. exists (board g), w, line.
      split; [reflexivity|]. split; [exact Hcw|]. split; [exact Hb|].
      left. split; [apply Hfull; reflexivity | reflexivity].
Qed.

(** For either difficulty and every draw of the generator, on a game with
    a board of three rows of three cells and the cursor on it,
    [maybe_ai_turn] does not raise and keeps the cursor and the difficulty.
    If a winner is already recorded the game is unchanged.  Otherwise either
    the board was full and stays as it was, or exactly one empty cell
    receives ["O"] and every other cell is as before; and the winner and the
    win line are then those [check_winner] gives for the new board. *)
Theorem maybe_ai_turn_fills_one_empty_cell (g : TicTacToeGame) (rnd : nat) :
  wf_game g ->
  exists g',
    maybe_ai_turn g rnd = Some g' /\ wf_game g' /\
    cursor g' = cursor g /\ difficulty g' = difficulty g /\
    (winner g <> None -> g' = g) /\
    (winner g = None ->
     check_winner (board g') = Some (winner g', win_line g') /\
     ((full (board g) /\ board g' = board g) \/
      exists rc,
        in_board rc /\ holds (board g) rc None /\
        holds (board g') rc (Some O) /\
        forall rc', in_board rc' -> rc' <> rc ->
                    get (board g') (fst rc') (snd rc') =
                    get (board g) (fst rc') (snd rc'))).
Proof.
  intros Hg. pose proof Hg as [Hb Hc].
  destruct (maybe_ai_turn_cases g rnd Hg)
    as [(o & Ew & Ht)|(Ew & b' & w & line & Ht & Hcw & Hwf & Hcase)].
  - exists g. split; [exact Ht|]. split; [exact Hg|].
    split; [reflexivity|]. split; [reflexivity|].
    split; [reflexivity | congruence].
  - eexists. split; [exact Ht|].
    cbn [board cursor difficulty winner win_line].
    split; [split; assumption|]. split; [reflexivity|]. split; [reflexivity|].
    split; [congruence|]. intros _. split; [exact Hcw|].
    destruct Hcase as [[Hfull ->]|(rc & Hpl)].
    + left. split; [exact Hfull | reflexivity].
    + right. exists rc. pose proof Hpl as (Hin & Hnone & Hset).
      destruct (set_spec (board g) rc (Some O) Hb Hin)
        as (b2 & Hs & _ & Hh & Hother).
      assert (b2 = b') by congruence. subst b2.
      split; [exact Hin|]. split; [exact Hnone|]. split; [exact Hh | exact Hother].
Qed.

Lemma maybe_ai_turn_fills_one_empty_cell_witness :
  exists g', maybe_ai_turn (init Difficulty.EASY) 4 = Some g' /\
             cursor g' = (1, 1).
Proof.
  destruct (maybe_ai_turn_fills_one_empty_cell (init Difficulty.EASY) 4)
    as (g' & H & _ & Hc & _).
  - split; [split; [reflexivity | repeat constructor]|].
    unfold in_board. cbn. lia.
  - exists g'. split; [exact H | exact Hc].
Defined.

(** One round as the main loop plays it, a successful [place_x] followed
    by [maybe_ai_turn]: nothing raises; every mark that was on the board is
    still there, so no cell is ever overwritten or cleared; the cell under
    the cursor holds ["X"]; if placing the ["X"] decided the game the AI does
    not move; and otherwise the final board differs from the board with the
    new ["X"] in at most one cell, which was empty and now holds ["O"]. *)
Theorem round_never_overwrites (g g1 : TicTacToeGame) (rnd : nat) :
  wf_game g ->
  place_x g = Some (g1, true) ->
  exists g2,
    maybe_ai_turn g1 rnd = Some g2 /\ wf_game g2 /\
    (forall rc m, in_board rc -> holds (board g) rc (Some m) ->
                  holds (board g2) rc (Some m)) /\
    holds (board g2) (cursor g) (Some X) /\
    (winner g1 <> None -> g2 = g1) /\
    (winner g1 = None ->
     board g2 = board g1 \/ exists rc, placed (board g1) rc O (board g2)).
Proof.
  intros Hg Hp. pose proof Hg as [Hb Hc].
  destruct (place_x_cases g Hg)
    as [(m & _ & Hp')|(b1 & w & line & Hpl & Hcw & Hp')];
    rewrite Hp' in Hp; [discriminate|].
  injection Hp as <-.
  destruct (placed_wf _ _ _ _ Hb Hpl) as [Hwf1 Hx].
  set (g1 := {| difficulty := difficulty g; board := b1; cursor := cursor g;
                winner := w; win_line := line |}).
  assert (Hg1 : wf_game g1) by (split; assumption).
  destruct (maybe_ai_turn_cases g1 rnd Hg1)
    as [(o & Ew & Ht)|(Ew & b2 & w2 & line2 & Ht & Hcw2 & Hwf2 & Hcase)].
  - exists g1. split; [exact Ht|]. split; [exact Hg1|].
    split; [|split; [exact Hx|split; [reflexivity | cbn in *; congruence]]].
    intros rc m Hin Hm. apply (placed_keeps _ _ _ _ _ _ Hb Hpl Hin Hm).
  - eexists. split; [exact Ht|].
    cbn [board cursor difficulty winner win_line].
    split; [split; assumption|].
    destruct Hcase as [[Hfull ->]|(rc & Hpl2)].
    + split; [|split; [exact Hx|split; [cbn in *; congruence|]]].
      * intros rc m Hin Hm. apply (placed_keeps _ _ _ _ _ _ Hb Hpl Hin Hm).
      * intros _. left. reflexivity.
    + split; [|split; [|split; [cbn in *; congruence|]]].
      * intros q m Hin Hm.
        apply (placed_keeps _ _ _ _ _ _ Hwf1 Hpl2 Hin).
        apply (placed_keeps _ _ _ _ _ _ Hb Hpl Hin Hm).
      * apply (placed_keeps _ _ _ _ _ _ Hwf1 Hpl2 Hc Hx).
      * intros _. right. exists rc. exact Hpl2.
Qed.

Lemma round_never_overwrites_witness :
  exists g1 g2,
    place_x (init Difficulty.HARD) = Some (g1, true) /\
    maybe_ai_turn g1 0 = Some g2 /\
    holds (board g2) (1, 1) (Some X).
Proof.
  destruct (place_x (init Difficulty.HARD)) as [[g1 [|]]|] eqn:Hp;
    try (vm_compute in Hp; discriminate).
  destruct (round_never_overwrites (init Difficulty.HARD) g1 0)
    as (g2 & Ht & _ & _ & Hx & _).
  - split; [split; [reflexivity | repeat constructor]|].
    unfold in_board. cbn. lia.
  - exact Hp.
  - exists g1, g2. repeat split; assumption.
Defined.

End BoardFacts.

(** ** [on_calibrate] and the holds *)

Section CalibrateMore.

Import PrimFloat.
Import Input64.

(** Whatever the input state, also in the middle of a hold that has
    already fired, [on_calibrate] puts both hold machines back to idle: a
    hold that goes on after it is timed from its first frame after the call
    and fires once when it reaches the threshold.  The call also sets the
    movement latch, sets the neutral-run counter to 0, keeps the time the
    face was last seen, and a second call changes nothing more. *)
Theorem on_calibrate_restarts_holds
    (s : InputState) (th : PrimFloat.float) (h : list EyeFrame) :
  (Forall (fun f => right_only f = true) h ->
   snd (run_right_only th (on_calibrate s) h) = expected_hold64 th h) /\
  (Forall (fun f => negb (game_over f) && both f = true) h ->
   snd (run_both th (on_calibrate s) h) = expected_hold64 th h) /\
  move_armed (on_calibrate s) = true /\
  neutral_run (on_calibrate s) = 0%Z /\
  last_face_seen_time (on_calibrate s) = last_face_seen_time s /\
  on_calibrate (on_calibrate s) = on_calibrate s.
Proof.
  assert (Hall : Forall (fun _ : EyeFrame => True) h).
  { apply Forall_forall. intros; exact I. }
  split; [|split].
  - intros Hh. rewrite run_right_only_latch_run.
    cbn [right_only_hold_start right_only_hold_armed on_calibrate
         set_right_only set_both set_move].
    destruct (latch_from_idle th reset_view64 (fun _ => True) right_only
                (fun f _ => eq_refl) true h Hall Hh) as (st & ar & E).
    rewrite E. reflexivity.
  - intros Hh. rewrite run_both_latch_run.
    cbn [both_hold_start both_hold_armed on_calibrate
         set_right_only set_both set_move].
    destruct (latch_from_idle th place_view64 (fun _ => True)
                (fun f => negb (game_over f) && both f)
                (fun f _ => eq_refl) true h Hall Hh) as (st & ar & E).
    rewrite E. reflexivity.
  - repeat split.
Qed.

(** A reset hold sampled at 0 and 3 s has fired; after [on_calibrate] it
    goes on at 3.1, 5, 6.1 and 7 s.  [6.1 - 3.1] rounds below 3.0, so the
    flag comes at 7 s. *)
Lemma on_calibrate_restarts_holds_witness :
  let held t := {| now := t; right_closed := true; left_closed := false;
                   game_over := false |} in
  snd (run_right_only 3.0
         (on_calibrate (fst (run_right_only 3.0 init [held 0.0; held 3.0])))
         [held 3.1; held 5.0; held 6.1; held 7.0])%float =
  [false; false; false; true].
Proof.
  intros held.
  destruct (on_calibrate_restarts_holds
              (fst (run_right_only 3.0 init [held 0.0; held 3.0]))%float
              3.0%float
              [held 3.1; held 5.0; held 6.1; held 7.0]%float) as [H _].
  apply H. repeat constructor.
Defined.

End CalibrateMore.
